(** * Vultr datasource helpers (cloudinit/sources/helpers/vultr.py)

    A shallow embedding of the helper module of the Vultr datasource:
    metadata acquisition over an ephemeral DHCP lease, the metadata route,
    the provider check and the translation of the metadata's interface list
    into a version-1 network configuration.

    Python objects that come from JSON are values of [value]; a [dict] is an
    association list in insertion order, as Python keeps it.  Exceptions are
    the constructors of [exn] and a computation that may raise has type
    [result A].  Code that talks to the system (DHCP, routes, HTTP) runs in
    the monad [M], which threads a [world]: the interface that holds the
    ephemeral lease, the trace of the calls made to the collaborators and the
    [lru_cache] of [get_metadata]. *)

From Stdlib Require Import ZArith Strings.Ascii Strings.String
  Numbers.DecimalString Lia.
From stdpp Require Import base option list strings gmap.

Local Set Warnings "-register-all".
Local Open Scope Z_scope.

(** ** Python values and exceptions *)

Module Py.

(** Hashable scalars: what can be a dictionary key or an exception
    argument. *)
Inductive atom :=
| ANone
| ABool (b : bool)
| AInt (n : Z)
| AStr (s : string).

Inductive value :=
| VNone
| VBool (b : bool)
| VInt (n : Z)
| VStr (s : string)
| VList (l : list value)
| VDict (d : list (string * value)).

Inductive exn :=
| RuntimeError (args : list atom)
| KeyError (key : string)
| TypeError (msg : string)
| ValueError (msg : string)
| NoDHCPLeaseError
| ProcessExecutionError (cmd : list string)
| UrlError (url : string) (code : option Z)
| UnicodeDecodeError.

Inductive result (A : Type) :=
| Ok (a : A)
| Raise (e : exn).
Arguments Ok {A} a.
Arguments Raise {A} e.

#[export] Instance result_ret : MRet result := fun A a => Ok a.
#[export] Instance result_bind : MBind result := fun A B f m =>
  match m with
  | Ok a => f a
  | Raise e => Raise e
  end.

Definition is_ok {A} (r : result A) : bool :=
  match r with Ok _ => true | Raise _ => false end.

(** *** Dictionaries in insertion order *)

Section Dict.
Context {A : Type}.

Fixpoint dict_get (k : string) (d : list (string * A)) : option A :=
  match d with
  | [] => None
  | (k', v) :: d' => if String.eqb k k' then Some v else dict_get k d'
  end.

(** [d[k] = v]: an existing key keeps its place, a new one goes last. *)
Fixpoint dict_set (k : string) (v : A) (d : list (string * A))
  : list (string * A) :=
  match d with
  | [] => [(k, v)]
  | (k', v') :: d' =>
      if String.eqb k k' then (k, v) :: d' else (k', v') :: dict_set k v d'
  end.

Definition dict_has (k : string) (d : list (string * A)) : bool :=
  match dict_get k d with
  | Some _ => true
  | None => false
  end.
End Dict.

(** *** Strings *)

(** [needle in s] for two strings. *)
Fixpoint str_contains (needle s : string) : bool :=
  String.prefix needle s ||
  match s with
  | EmptyString => false
  | String _ s' => str_contains needle s'
  end.

(** Iterating a string yields its characters as strings. *)
Fixpoint str_chars (s : string) : list string :=
  match s with
  | EmptyString => []
  | String c s' => String c EmptyString :: str_chars s'
  end.

Definition atom_str (a : atom) : string :=
  match a with
  | ANone => "None"
  | ABool true => "True"
  | ABool false => "False"
  | AInt n => NilEmpty.string_of_int (Z.to_int n)
  | AStr s => s
  end.

(** [fmt % args] for the conversions the module uses, [%s] and [%%]; the
    arguments are already converted with [str]. *)
Fixpoint percent (fmt : string) (args : list string) : result string :=
  match fmt with
  | EmptyString =>
      match args with
      | [] => Ok EmptyString
      | _ :: _ =>
          Raise (TypeError
                   "not all arguments converted during string formatting")
      end
  | String "%" (String "s" rest) =>
      match args with
      | a :: args' => r ← percent rest args'; mret (a +:+ r)
      | [] => Raise (TypeError "not enough arguments for format string")
      end
  | String "%" (String "%" rest) =>
      r ← percent rest args; mret (String "%" r)
  | String "%" _ => Raise (ValueError "unsupported format character")
  | String c rest => r ← percent rest args; mret (String c r)
  end.

(** *** Operations on values *)

(** [hash(v)]: lists and dictionaries are unhashable. *)
Definition py_hash (v : value) : result atom :=
  match v with
  | VNone => Ok ANone
  | VBool b => Ok (ABool b)
  | VInt n => Ok (AInt n)
  | VStr s => Ok (AStr s)
  | VList _ => Raise (TypeError "unhashable type: 'list'")
  | VDict _ => Raise (TypeError "unhashable type: 'dict'")
  end.

(** [v[k]] for a string [k]. *)
Definition py_getitem (v : value) (k : string) : result value :=
  match v with
  | VDict d =>
      match dict_get k d with
      | Some x => Ok x
      | None => Raise (KeyError k)
      end
  | VList _ => Raise (TypeError "list indices must be integers or slices")
  | VStr _ => Raise (TypeError "string indices must be integers")
  | _ => Raise (TypeError "object is not subscriptable")
  end.

Definition is_str (k : string) (v : value) : bool :=
  match v with
  | VStr s => String.eqb k s
  | _ => false
  end.

(** [k in v] for a string [k]. *)
Definition py_in (k : string) (v : value) : result bool :=
  match v with
  | VDict d => Ok (dict_has k d)
  | VList l => Ok (existsb (is_str k) l)
  | VStr s => Ok (str_contains k s)
  | _ => Raise (TypeError "argument is not iterable")
  end.

(** [len(v)]. *)
Definition py_len (v : value) : result nat :=
  match v with
  | VList l => Ok (length l)
  | VDict d => Ok (length d)
  | VStr s => Ok (String.length s)
  | _ => Raise (TypeError "object has no len()")
  end.

(** The items a [for] loop over [v] visits. *)
Definition py_iter (v : value) : result (list value) :=
  match v with
  | VList l => Ok l
  | VDict d => Ok (VStr <$> d.*1)
  | VStr s => Ok (VStr <$> str_chars s)
  | _ => Raise (TypeError "object is not iterable")
  end.

(** The truth value of [None] or a string. *)
Definition truthy (o : option string) : bool :=
  match o with
  | None => false
  | Some s => negb (String.eqb s EmptyString)
  end.

(** A [for] loop that updates one variable and stops at the first
    exception. *)
Fixpoint for_each {A S} (f : S → A → result S) (items : list A) (s : S)
  : result S :=
  match items with
  | [] => Ok s
  | x :: items' => s' ← f s x; for_each f items' s'
  end.

End Py.
Export Py.

(** ** The interface name resolver and the network configuration *)

Section NetworkConfig.

(** [get_interface_map()]: the cached result of
    [net.get_interfaces_by_mac()], MAC address to interface name. *)
Variable macs_to_nic : gmap string string.

Definition get_interface_name (mac : value) : result (option string) :=
  k ← py_hash mac;
  match k with
  | AStr s => mret (macs_to_nic !! s)
  | _ => mret None
  end.

(** [not interface_name] for [None] or a string. *)
Definition not_name (interface_name : option string) : bool :=
  negb (truthy interface_name).

(** [RuntimeError("Interface: %s could not be found on the system" % mac)];
    [mac] is a scalar here, [get_interface_name] has hashed it. *)
Definition interface_not_found (mac : value) : result exn :=
  k ← py_hash mac;
  msg ← percent "Interface: %s could not be found on the system"
                [atom_str k];
  mret (RuntimeError [AStr msg]).

(** [netcfg["subnets"][0]["routes"] = routes] *)
Definition set_primary_routes (routes : value)
    (netcfg : list (string * value)) : result (list (string * value)) :=
  subnets ← py_getitem (VDict netcfg) "subnets";
  match subnets with
  | VList (VDict subnet :: rest) =>
      mret (dict_set "subnets"
              (VList (VDict (dict_set "routes" routes subnet) :: rest))
              netcfg)
  | VList (_ :: _) =>
      Raise (TypeError "object does not support item assignment")
  | VList [] => Raise (TypeError "list index out of range")
  | _ => Raise (TypeError "object is not subscriptable")
  end.

(** [netcfg["subnets"].append(add)] *)
Definition append_subnet (add : value) (netcfg : list (string * value))
  : result (list (string * value)) :=
  subnets ← py_getitem (VDict netcfg) "subnets";
  match subnets with
  | VList l => mret (dict_set "subnets" (VList (l ++ [add])) netcfg)
  | _ => Raise (TypeError "object has no attribute 'append'")
  end.

(** The options that may or may not be used: [mtu], [accept-ra] and
    [routes], shared by the public and the private translation. *)
Definition copy_options (interface : value)
    (netcfg : list (string * value)) : result (list (string * value)) :=
  has_mtu ← py_in "mtu" interface;
  netcfg ← (if has_mtu : bool
            then mtu ← py_getitem interface "mtu";
                 mret (dict_set "mtu" mtu netcfg)
            else mret netcfg);
  has_ra ← py_in "accept-ra" interface;
  netcfg ← (if has_ra : bool
            then ra ← py_getitem interface "accept-ra";
                 mret (dict_set "accept-ra" ra netcfg)
            else mret netcfg);
  has_routes ← py_in "routes" interface;
  if has_routes : bool
  then routes ← py_getitem interface "routes";
       set_primary_routes routes netcfg
  else mret netcfg.

(** The body of the loops over [interface["ipv4"]["additional"]] and
    [interface["ipv6"]["additional"]]; [ty] is ["static"] or
    ["static6"]. *)
Definition add_additional (ty : string) (netcfg : list (string * value))
    (additional : value) : result (list (string * value)) :=
  address ← py_getitem additional "address";
  netmask ← py_getitem additional "netmask";
  let add := [("type", VStr ty); ("control", VStr "auto");
              ("address", address); ("netmask", netmask)] in
  has_routes ← py_in "routes" additional;
  add ← (if has_routes : bool
         then routes ← py_getitem additional "routes";
              mret (dict_set "routes" routes add)
         else mret add);
  append_subnet (VDict add) netcfg.

(** The check for additional addresses of one family: the length is
    taken before the membership test of the guard. *)
Definition add_additionals (family ty : string) (interface : value)
    (netcfg : list (string * value)) : result (list (string * value)) :=
  ip ← py_getitem interface family;
  additionals ← py_getitem ip "additional";
  additional_count ← py_len additionals;
  has_family ← py_in family interface;
  if has_family && bool_decide (0 < additional_count)%nat
  then ip ← py_getitem interface family;
       additionals ← py_getitem ip "additional";
       items ← py_iter additionals;
       for_each (add_additional ty) items netcfg
  else mret netcfg.

Definition generate_public_network_interface (interface : value)
  : result value :=
  mac ← py_getitem interface "mac";
  interface_name ← get_interface_name mac;
  if not_name interface_name
  then mac ← py_getitem interface "mac";
       e ← interface_not_found mac;
       Raise e
  else
    mac ← py_getitem interface "mac";
    let netcfg :=
      [("name", VStr (default EmptyString interface_name));
       ("type", VStr "physical");
       ("mac_address", mac);
       ("accept-ra", VInt 1);
       ("subnets",
        VList [VDict [("type", VStr "dhcp"); ("control", VStr "auto")];
               VDict [("type", VStr "ipv6_slaac");
                      ("control", VStr "auto")]])] in
    netcfg ← copy_options interface netcfg;
    netcfg ← add_additionals "ipv4" "static" interface netcfg;
    netcfg ← add_additionals "ipv6" "static6" interface netcfg;
    mret (VDict netcfg).

Definition generate_private_network_interface (interface : value)
  : result value :=
  mac ← py_getitem interface "mac";
  interface_name ← get_interface_name mac;
  if not_name interface_name
  then mac ← py_getitem interface "mac";
       e ← interface_not_found mac;
       Raise e
  else
    mac ← py_getitem interface "mac";
    ipv4 ← py_getitem interface "ipv4";
    address ← py_getitem ipv4 "address";
    ipv4 ← py_getitem interface "ipv4";
    netmask ← py_getitem ipv4 "netmask";
    let netcfg :=
      [("name", VStr (default EmptyString interface_name));
       ("type", VStr "physical");
       ("mac_address", mac);
       ("subnets",
        VList [VDict [("type", VStr "static"); ("control", VStr "auto");
                      ("address", address); ("netmask", netmask)]])] in
    netcfg ← copy_options interface netcfg;
    mret (VDict netcfg).

Definition nameserver : value :=
  VDict [("type", VStr "nameserver");
         ("address", VList [VStr "108.61.10.10"])].

(** The body of the loop over the private interfaces;
    [network["config"].append(private)] on the configuration list. *)
Definition append_private (config : list value) (interface : value)
  : result (list value) :=
  private ← generate_private_network_interface interface;
  mret (config ++ [private]).

Definition generate_network_config (interfaces : list value)
  : result value :=
  let config := [nameserver] in
  config ← (match interfaces with
            | interface0 :: _ =>
                public ← generate_public_network_interface interface0;
                mret (config ++ [public])
            | [] => mret config
            end);
  config ← for_each append_private (drop 1 interfaces) config;
  mret (VDict [("version", VInt 1); ("config", VList config)]).

End NetworkConfig.

(** ** The shape of the metadata records and of the stanzas *)

Section Shapes.
Variable macs_to_nic : gmap string string.

(** [interface[family]["additional"]] when it is a list. *)
Definition additionals (family : string) (interface : value)
  : option (list value) :=
  match interface with
  | VDict d =>
      match dict_get family d with
      | Some (VDict ip) =>
          match dict_get "additional" ip with
          | Some (VList l) => Some l
          | _ => None
          end
      | _ => None
      end
  | _ => None
  end.

(** An additional address: a record with [address] and [netmask]. *)
Definition wf_additional (additional : value) : bool :=
  match additional with
  | VDict a => dict_has "address" a && dict_has "netmask" a
  | _ => false
  end.

(** What the public translation reads: both lists of additional
    addresses. *)
Definition wf_public (interface : value) : bool :=
  match additionals "ipv4" interface, additionals "ipv6" interface with
  | Some a4, Some a6 => forallb wf_additional a4 && forallb wf_additional a6
  | _, _ => false
  end.

(** What the private translation reads: the primary IPv4 address. *)
Definition wf_private (interface : value) : bool :=
  match interface with
  | VDict d =>
      match dict_get "ipv4" d with
      | Some (VDict ip) => dict_has "address" ip && dict_has "netmask" ip
      | _ => false
      end
  | _ => false
  end.

(** The MAC address of the record is a string that the interface map
    sends to a non-empty name. *)
Definition resolved_name (interface : value) : option string :=
  match interface with
  | VDict d =>
      match dict_get "mac" d with
      | Some (VStr mac) =>
          match macs_to_nic !! mac with
          | Some name => if String.eqb name "" then None else Some name
          | None => None
          end
      | _ => None
      end
  | _ => None
  end.

Definition resolves (interface : value) : bool :=
  bool_decide (is_Some (resolved_name interface)).

(** The MAC address of the record when it is a string without a name. *)
Definition unresolved_mac (interface : value) : option string :=
  match interface with
  | VDict d =>
      match dict_get "mac" d with
      | Some (VStr mac) =>
          match resolved_name interface with
          | Some _ => None
          | None => Some mac
          end
      | _ => None
      end
  | _ => None
  end.

Definition opt_field (k : string) (o : option value)
  : list (string * value) :=
  match o with
  | Some v => [(k, v)]
  | None => []
  end.

(** The subnet of one additional address. *)
Definition static_subnet (ty : string) (additional : value) : value :=
  match additional with
  | VDict a =>
      VDict ([("type", VStr ty); ("control", VStr "auto");
              ("address", default VNone (dict_get "address" a));
              ("netmask", default VNone (dict_get "netmask" a))]
             ++ opt_field "routes" (dict_get "routes" a))
  | _ => VNone
  end.

(** The public stanza of a well-formed record [d] with name [name]. *)
Definition public_stanza (name : string) (interface : value) : value :=
  match interface with
  | VDict d =>
      VDict
        ([("name", VStr name);
          ("type", VStr "physical");
          ("mac_address", default VNone (dict_get "mac" d));
          ("accept-ra", default (VInt 1) (dict_get "accept-ra" d));
          ("subnets",
           VList
             (VDict ([("type", VStr "dhcp"); ("control", VStr "auto")]
                     ++ opt_field "routes" (dict_get "routes" d))
              :: VDict [("type", VStr "ipv6_slaac");
                        ("control", VStr "auto")]
              :: (static_subnet "static"
                    <$> default [] (additionals "ipv4" interface))
              ++ (static_subnet "static6"
                    <$> default [] (additionals "ipv6" interface))))]
         ++ opt_field "mtu" (dict_get "mtu" d))
  | _ => VNone
  end.

Definition not_found_error (mac : string) : exn :=
  RuntimeError
    [AStr ("Interface: " +:+ mac +:+ " could not be found on the system")].

(** The interface list the synthesizer is meant for: every MAC address
    has a name, element 0 has what the public translation reads and the
    others what the private translation reads. *)
Definition wf_interfaces (interfaces : list value) : bool :=
  match interfaces with
  | [] => true
  | interface0 :: others =>
      resolves interface0 && wf_public interface0
      && forallb (λ i, resolves i && wf_private i) others
  end.

(** A public record without one of the two lists of additional
    addresses, and the key whose lookup fails. *)
Inductive lacks_additional (interface : value) : string → Prop :=
| lacks_ipv4 d :
    interface = VDict d →
    dict_get "ipv4" d = None →
    lacks_additional interface "ipv4"
| lacks_ipv4_additional d ip :
    interface = VDict d →
    dict_get "ipv4" d = Some (VDict ip) →
    dict_get "additional" ip = None →
    lacks_additional interface "additional"
| lacks_ipv6 d a4 :
    interface = VDict d →
    additionals "ipv4" interface = Some a4 →
    forallb wf_additional a4 = true →
    dict_get "ipv6" d = None →
    lacks_additional interface "ipv6"
| lacks_ipv6_additional d a4 ip :
    interface = VDict d →
    additionals "ipv4" interface = Some a4 →
    forallb wf_additional a4 = true →
    dict_get "ipv6" d = Some (VDict ip) →
    dict_get "additional" ip = None →
    lacks_additional interface "additional".
End Shapes.

(** ** The system: collaborators, the world and the monad *)

(** [net.get_interfaces()] yields tuples [(name, mac, driver, device_id)];
    [iface[0]] is [if_name]. *)
Record net_interface := {
  if_name : string;
  if_mac : string;
  if_driver : string;
  if_device_id : string
}.

(** The arguments of [url_helper.readurl]. *)
Record request := {
  req_url : string;
  req_timeout : Z;
  req_retries : Z;
  req_headers : list (string * string);
  req_sec_between : Z
}.

(** A [UrlResponse]: [response.code], [response.ok()] and the outcome of
    [response.contents.decode()]. *)
Record response := {
  code : Z;
  ok : bool;
  contents_decode : result string
}.

(** The calls that change or probe the system from outside. *)
Inductive event :=
| DhcpEnter (iface : string) (connectivity_url : string)
| DhcpExit (iface : string)
| Subp (cmd : list string)
| ReadUrl (req : request)
| LogError (exc : exn).

(** The collaborators.  What the network answers depends on the interface
    that holds the ephemeral lease, [None] outside of an attempt. *)
Record Env := {
  net_get_interfaces : list net_interface;
  (** [EphemeralDHCPv4(iface, ...).__enter__()]: [None] when a lease is
      obtained, the exception otherwise. *)
  dhcp_obtain_lease : string → option exn;
  (** [netinfo.route_info()]: the tables by address family, or the
      exception of the command that lists the routes. *)
  netinfo_route_info :
    option string → result (gmap string (list (gmap string string)));
  subp_which : string → option string;
  subp_subp : list string → option exn;
  url_helper_readurl : option string → request → result response;
  json_loads : string → result value
}.

(** The arguments of [get_metadata], the key of its cache. *)
Definition cache_key : Type := string * Z * Z * Z * string.

Record world := {
  lease : option string;
  trace : list event;
  cache : list (cache_key * value)
}.

Definition set_lease (l : option string) (w : world) : world :=
  {| lease := l; trace := trace w; cache := cache w |}.
Definition add_event (e : event) (w : world) : world :=
  {| lease := lease w; trace := trace w ++ [e]; cache := cache w |}.
Definition set_cache (c : list (cache_key * value)) (w : world) : world :=
  {| lease := lease w; trace := trace w; cache := c |}.

Definition fresh_world : world := {| lease := None; trace := []; cache := [] |}.

Definition M (A : Type) : Type := world → result A * world.

#[export] Instance M_ret : MRet M := λ A a w, (Ok a, w).
#[export] Instance M_bind : MBind M := λ A B f m w,
  match m w with
  | (Ok a, w') => f a w'
  | (Raise e, w') => (Raise e, w')
  end.

Definition lift {A} (r : result A) : M A := λ w, (r, w).
Definition raise {A} (e : exn) : M A := λ w, (Raise e, w).
Definition emit (e : event) : M unit := λ w, (Ok (), add_event e w).
(** An answer of the system that depends on the holder of the lease. *)
Definition ask {A} (f : option string → result A) : M A :=
  λ w, (f (lease w), w).

(** [try: body  except (NoDHCPLeaseError, ProcessExecutionError) as exc:
    handler(exc)]. *)
Definition is_caught (e : exn) : bool :=
  match e with
  | NoDHCPLeaseError | ProcessExecutionError _ => true
  | _ => false
  end.

Definition try_except {A} (body : M A) (handler : exn → M A) : M A := λ w,
  match body w with
  | (Raise exc, w') =>
      if is_caught exc then handler exc w' else (Raise exc, w')
  | (Ok a, w') => (Ok a, w')
  end.

(** ** Route installer, fetcher and orchestrator *)

Section Acquisition.
Variable env : Env.

Definition route_info : M (gmap string (list (gmap string string))) :=
  ask (λ l, netinfo_route_info env l).

Definition subp (cmd : list string) : M unit :=
  emit (Subp cmd);;
  match subp_subp env cmd with
  | Some e => raise e
  | None => mret ()
  end.

Definition readurl (req : request) : M response :=
  emit (ReadUrl req);;
  ask (λ l, url_helper_readurl env l req).

(** [with EphemeralDHCPv4(iface=iface, connectivity_url_data={"url": url}):
    body]; the lease is released on every way out of [body]. *)
Definition with_EphemeralDHCPv4 {A} (iface url : string) (body : M A)
  : M A :=
  emit (DhcpEnter iface url);;
  match dhcp_obtain_lease env iface with
  | Some e => raise e
  | None =>
      (λ w, let (r, w') := body (set_lease (Some iface) w) in
            (r, add_event (DhcpExit iface) (set_lease None w'))) : M A
  end.

(** The loop that collects [route["destination"]]. *)
Definition append_destination (dests : list string)
    (route : gmap string string) : result (list string) :=
  match route !! "destination" with
  | Some d => Ok (dests ++ [d])
  | None => Raise (KeyError "destination")
  end.

Definition set_route (iface : string) : M unit :=
  routes ← route_info;
  match routes !! "ipv4" with
  | None => mret ()
  | Some routes =>
      dests ← lift (for_each append_destination routes []);
      let gw_present :=
        bool_decide ("100.64.0.0" ∈ dests)
        || bool_decide ("100.64.0.0/10" ∈ dests) in
      let dest_present := bool_decide ("169.254.169.254" ∈ dests) in
      if negb gw_present || dest_present then mret ()
      else if truthy (subp_which env "ip")
      then subp ["ip"; "route"; "add"; "169.254.169.254/32"; "dev"; iface]
      else if truthy (subp_which env "route")
      then subp ["route"; "add"; "-net"; "169.254.169.254/32";
                 "100.64.0.1"]
      else mret ()
  end.

Definition read_metadata (url : string) (timeout retries sec_between : Z)
    (agent : string) : M string :=
  url ← lift (percent "%s/v1.json" [url]);
  let headers := [("Metadata-Token", "cloudinit"); ("User-Agent", agent)] in
  response ← readurl {| req_url := url; req_timeout := timeout;
                        req_retries := retries; req_headers := headers;
                        req_sec_between := sec_between |};
  if negb (ok response)
  then
    (* "Failed to connect to %s: Code: %s" % url, response.code:
       the operator [%] binds tighter than the comma *)
    msg ← lift (percent "Failed to connect to %s: Code: %s" [url]);
    raise (RuntimeError [AStr msg; AInt (code response)])
  else lift (contents_decode response).

(** The body of the [try] of [get_metadata] for one interface. *)
Definition attempt (iface : string) (url : string)
    (timeout retries sec_between : Z) (agent : string) : M value :=
  with_EphemeralDHCPv4 iface url
    (set_route iface;;
     v1 ← read_metadata url timeout retries sec_between agent;
     lift (json_loads env v1)).

(** The [for] loop of [get_metadata]; [exception] is the local variable
    of that name. *)
Fixpoint get_metadata_loop (ifaces : list net_interface) (exception : exn)
    (url : string) (timeout retries sec_between : Z) (agent : string)
  : M value :=
  match ifaces with
  | [] => raise exception
  | iface :: ifaces' =>
      if str_contains "dummy" (if_name iface)
      then get_metadata_loop ifaces' exception
             url timeout retries sec_between agent
      else if String.eqb "lo" (if_name iface)
      then get_metadata_loop ifaces' exception
             url timeout retries sec_between agent
      else
        try_except
          (attempt (if_name iface) url timeout retries sec_between agent)
          (λ exc,
             emit (LogError exc);;
             get_metadata_loop ifaces' exc
               url timeout retries sec_between agent)
  end.

(** [get_metadata] without its decorator. *)
Definition get_metadata_uncached (url : string)
    (timeout retries sec_between : Z) (agent : string) : M value :=
  get_metadata_loop (net_get_interfaces env)
    (RuntimeError [AStr "Failed to DHCP"])
    url timeout retries sec_between agent.

(** [functools.lru_cache()]: [maxsize] is 128, the cache is kept in order
    of use, most recent first, and only a returned value is stored. *)
Definition lru_maxsize : nat := 128.

Definition cache_remove (key : cache_key) (c : list (cache_key * value))
  : list (cache_key * value) :=
  filter (λ kv, kv.1 ≠ key) c.

Definition lru_cache (key : cache_key) (body : M value) : M value := λ w,
  match list_find (λ kv, kv.1 = key) (cache w) with
  | Some (_, (_, v)) =>
      (Ok v, set_cache ((key, v) :: cache_remove key (cache w)) w)
  | None =>
      match body w with
      | (Ok v, w') =>
          (Ok v, set_cache (take lru_maxsize ((key, v) :: cache w')) w')
      | (Raise e, w') => (Raise e, w')
      end
  end.

Definition get_metadata (url : string) (timeout retries sec_between : Z)
    (agent : string) : M value :=
  lru_cache (url, timeout, retries, sec_between, agent)
    (get_metadata_uncached url timeout retries sec_between agent).

End Acquisition.

(** ** Identity detector *)

(** The kernel command line is a Python [str]: a sequence of Unicode code
    points.  [codepoints] gives the code points of an ASCII literal. *)
Definition codepoints (s : string) : list N :=
  N_of_ascii <$> list_ascii_of_string s.

(** [c.isspace()], the separators of [str.split()]: tab to carriage
    return, the four information separators and the space, next line and
    no-break space, and the Unicode spaces and line separators. *)
Definition is_space (c : N) : bool :=
  ((9 <=? c) && (c <=? 13) || (28 <=? c) && (c <=? 32)
   || (c =? 133) || (c =? 160) || (c =? 5760)
   || (8192 <=? c) && (c <=? 8202)
   || (c =? 8232) || (c =? 8233) || (c =? 8239) || (c =? 8287)
   || (c =? 12288))%N.

(** [s.split()]: [word] holds the characters of the word being read. *)
Fixpoint split_from (word s : list N) : list (list N) :=
  match s with
  | [] =>
      match word with
      | [] => []
      | _ :: _ => [word]
      end
  | c :: s' =>
      if is_space c
      then match word with
           | [] => split_from [] s'
           | _ :: _ => word :: split_from [] s'
           end
      else split_from (word ++ [c]) s'
  end.

Definition split (s : list N) : list (list N) := split_from [] s.

Section Identity.
(** [dmi.read_dmi_data(key)] and [util.get_cmdline()]. *)
Variable read_dmi_data : string → option string.
Variable get_cmdline : list N.

Record sysinfo := {
  manufacturer : option string;
  subid : option string
}.

Definition get_sysinfo : sysinfo :=
  {| manufacturer := read_dmi_data "system-manufacturer";
     subid := read_dmi_data "system-serial-number" |}.

Definition is_baremetal : bool :=
  if bool_decide (manufacturer get_sysinfo ≠ Some "Vultr")
  then true
  else false.

Definition is_vultr : bool :=
  let sysinfo := get_sysinfo in
  if bool_decide (manufacturer sysinfo = Some "Vultr") then true
  else if bool_decide (codepoints "vultr" ∈ split get_cmdline) then true
  else false.
End Identity.

(** ** The orchestrator seen from outside *)

Section AcquisitionShapes.
Variable env : Env.
Variables (url : string) (timeout retries sec_between : Z) (agent : string).

(** An interface named [lo] or with [dummy] in its name. *)
Definition is_skipped (name : string) : Prop :=
  name = "lo" ∨ ∃ a b, name = a +:+ "dummy" +:+ b.

(** [candidates_of ifaces tried]: [tried] is [ifaces] without the skipped
    interfaces, in the same order. *)
Inductive candidates_of : list net_interface → list net_interface → Prop :=
| candidates_nil : candidates_of [] []
| candidates_skip iface ifaces tried :
    is_skipped (if_name iface) →
    candidates_of ifaces tried →
    candidates_of (iface :: ifaces) tried
| candidates_keep iface ifaces tried :
    ¬ is_skipped (if_name iface) →
    candidates_of ifaces tried →
    candidates_of (iface :: ifaces) (iface :: tried).

(** What one attempt on an interface returns or raises, and the calls it
    makes, the logging of a caught exception included. *)
Definition attempt_result (iface : net_interface) : result value :=
  (attempt env (if_name iface) url timeout retries sec_between agent
     fresh_world).1.

Definition attempt_events (iface : net_interface) : list event :=
  trace (attempt env (if_name iface) url timeout retries sec_between agent
           fresh_world).2
  ++ match attempt_result iface with
     | Raise exc => if is_caught exc then [LogError exc] else []
     | Ok _ => []
     end.

(** A per-interface error the loop records before it goes on. *)
Definition fails_with (iface : net_interface) (exc : exn) : Prop :=
  attempt_result iface = Raise exc ∧ is_caught exc = true.

Definition cached (key : cache_key) (w : world) : option value :=
  snd ∘ snd <$> list_find (λ kv, kv.1 = key) (cache w).

Definition is_fetch (e : event) : bool :=
  match e with
  | ReadUrl _ => true
  | _ => false
  end.

(** The number of network fetches in a trace. *)
Definition fetch_count (t : list event) : nat :=
  length (filter (λ e, is_fetch e = true) t).

(** A computation that reads of the world only the holder of the lease
    and only adds to the trace. *)
Definition framed {A} (m : M A) : Prop :=
  ∀ l, ∃ r evs, ∀ w, lease w = l →
    m w = (r, {| lease := l; trace := trace w ++ evs; cache := cache w |}).
End AcquisitionShapes.

(** ** The route installer and the fetcher seen from outside *)

Definition ip_route_add (iface : string) : list string :=
  ["ip"; "route"; "add"; "169.254.169.254/32"; "dev"; iface].

Definition route_add_net : list string :=
  ["route"; "add"; "-net"; "169.254.169.254/32"; "100.64.0.1"].

(** The IPv4 table could be read, it has a route to the carrier-grade NAT
    block and none to the metadata address. *)
Definition needs_metadata_route
    (answer : result (gmap string (list (gmap string string)))) : Prop :=
  ∃ table routes dests,
    answer = Ok table
    ∧ table !! "ipv4" = Some routes
    ∧ Forall2 (λ route d, route !! "destination" = Some d) routes dests
    ∧ ("100.64.0.0" ∈ dests ∨ "100.64.0.0/10" ∈ dests)
    ∧ "169.254.169.254" ∉ dests.

(** The request [read_metadata] sends. *)
Definition metadata_request (url : string) (timeout retries sec_between : Z)
    (agent : string) : request :=
  {| req_url := url +:+ "/v1.json";
     req_timeout := timeout;
     req_retries := retries;
     req_headers := [("Metadata-Token", "cloudinit"); ("User-Agent", agent)];
     req_sec_between := sec_between |}.

(** ** Words of the kernel command line *)

(** The whitespace characters of Unicode by code point: U+0009 to U+000D,
    U+001C to U+0020, U+0085, U+00A0, U+1680, U+2000 to U+200A, U+2028,
    U+2029, U+202F, U+205F and U+3000. *)
Definition unicode_whitespace : list N :=
  [9; 10; 11; 12; 13; 28; 29; 30; 31; 32; 133; 160; 5760;
   8192; 8193; 8194; 8195; 8196; 8197; 8198; 8199; 8200; 8201; 8202;
   8232; 8233; 8239; 8287; 12288]%N.

Definition space_or_end (post : list N) : Prop :=
  post = [] ∨ ∃ c post', post = c :: post' ∧ c ∈ unicode_whitespace.

Definition space_or_start (pre : list N) : Prop :=
  pre = [] ∨ ∃ pre' c, pre = pre' ++ [c] ∧ c ∈ unicode_whitespace.

(** [w] occurs in [s] as a word: it is not empty, has no whitespace, and is
    bounded on each side by whitespace or by an end of [s]. *)
Definition delimited_word (w s : list N) : Prop :=
  w ≠ [] ∧ (∀ c, c ∈ w → c ∉ unicode_whitespace)
  ∧ ∃ pre post,
      s = pre ++ w ++ post ∧ space_or_start pre ∧ space_or_end post.

(** A command line in which a no-break space separates the two words. *)
Definition cmdline_nbsp : list N :=
  codepoints "quiet" ++ [160%N] ++ codepoints "vultr".

(** ** Sample metadata and sample systems *)

Definition sample_macs : gmap string string :=
  {[ "AA" := "eth0"; "BB" := "eth1" ]}.

Definition sample_public : value :=
  VDict [("mac", VStr "AA");
         ("ipv4",
          VDict [("additional",
                  VList [VDict [("address", VStr "1.2.3.4");
                                ("netmask", VStr "255.255.255.0")]])]);
         ("ipv6", VDict [("additional", VList [])])].

Definition sample_private : value :=
  VDict [("mac", VStr "BB");
         ("ipv4", VDict [("address", VStr "10.1.96.3");
                         ("netmask", VStr "255.255.240.0")])].

(** A private record whose MAC address no interface of the system has. *)
Definition sample_unknown : value :=
  VDict [("mac", VStr "CC");
         ("ipv4", VDict [("address", VStr "10.1.96.4");
                         ("netmask", VStr "255.255.240.0")])].

(** A public record without the [ipv4] key. *)
Definition sample_public_no_ipv4 : value :=
  VDict [("mac", VStr "AA"); ("ipv6", VDict [("additional", VList [])])].

Definition iface_named (name : string) : net_interface :=
  {| if_name := name; if_mac := ""; if_driver := ""; if_device_id := "" |}.

Definition cgnat_table : gmap string (list (gmap string string)) :=
  {[ "ipv4" := [ {[ "destination" := "100.64.0.0/10" ]} ] ]}.

Definition response_200 : response :=
  {| code := 200; ok := true; contents_decode := Ok "{}" |}.

Definition response_500 : response :=
  {| code := 500; ok := false; contents_decode := Ok "" |}.

(** One interface, no route to add, and a server that answers 500. *)
Definition env_http_500 : Env :=
  {| net_get_interfaces := [iface_named "eth0"];
     dhcp_obtain_lease := λ _, None;
     netinfo_route_info := λ _, Ok ∅;
     subp_which := λ _, None;
     subp_subp := λ _, None;
     url_helper_readurl := λ _ _, Ok response_500;
     json_loads := λ _, Ok (VDict []) |}.

(** A host behind the carrier-grade NAT with neither [ip] nor [route]. *)
Definition env_no_route_tool : Env :=
  {| net_get_interfaces := [iface_named "eth0"];
     dhcp_obtain_lease := λ _, None;
     netinfo_route_info := λ _, Ok cgnat_table;
     subp_which := λ _, None;
     subp_subp := λ _, None;
     url_helper_readurl := λ _ _, Ok response_200;
     json_loads := λ _, Ok (VDict []) |}.

(** Two interfaces that both get a lease; the fetch over [eth0] raises
    [UrlError], the fetch over [eth1] succeeds. *)
Definition env_fetch_error : Env :=
  {| net_get_interfaces := [iface_named "eth0"; iface_named "eth1"];
     dhcp_obtain_lease := λ _, None;
     netinfo_route_info := λ _, Ok ∅;
     subp_which := λ _, None;
     subp_subp := λ _, None;
     url_helper_readurl := λ l req,
       if bool_decide (l = Some "eth0")
       then Raise (UrlError (req_url req) None)
       else Ok response_200;
     json_loads := λ _, Ok (VDict [("interfaces", VList [])]) |}.

(** [eth0] gets no lease; [eth1] does and the fetch over it succeeds. *)
Definition env_second_interface : Env :=
  {| net_get_interfaces :=
       [iface_named "lo"; iface_named "dummy0"; iface_named "eth0";
        iface_named "eth1"; iface_named "eth2"];
     dhcp_obtain_lease := λ iface,
       if String.eqb iface "eth0" then Some NoDHCPLeaseError else None;
     netinfo_route_info := λ _, Ok cgnat_table;
     subp_which := λ tool,
       if String.eqb tool "ip" then Some "/usr/sbin/ip" else None;
     subp_subp := λ _, None;
     url_helper_readurl := λ _ _, Ok response_200;
     json_loads := λ _, Ok (VDict [("interfaces", VList [])]) |}.

(** [eth0] gets no lease and the route command fails on [eth1]. *)
Definition env_all_fail : Env :=
  {| net_get_interfaces :=
       [iface_named "lo"; iface_named "eth0"; iface_named "eth1"];
     dhcp_obtain_lease := λ iface,
       if String.eqb iface "eth0" then Some NoDHCPLeaseError else None;
     netinfo_route_info := λ _, Ok cgnat_table;
     subp_which := λ tool,
       if String.eqb tool "ip" then Some "/usr/sbin/ip" else None;
     subp_subp := λ cmd, Some (ProcessExecutionError cmd);
     url_helper_readurl := λ _ _, Ok response_200;
     json_loads := λ _, Ok (VDict []) |}.

Definition sample_url : string := "http://169.254.169.254".
Definition sample_agent : string := "Cloud-Init/22.1".

(** ** Names written into the metadata *)

(** [v[k] = x] for a string [k]. *)
Definition py_setitem (v : value) (k : string) (x : value) : result value :=
  match v with
  | VDict d => Ok (VDict (dict_set k x d))
  | VList _ => Raise (TypeError "list indices must be integers or slices")
  | _ => Raise (TypeError "object does not support item assignment")
  end.

Section InterfaceNames.
Variable macs_to_nic : gmap string string.

(** The body of the loop of [add_interface_names]: the record after
    [interface["name"] = interface_name]. *)
Definition add_interface_name (interface : value) : result value :=
  mac ← py_getitem interface "mac";
  interface_name ← get_interface_name macs_to_nic mac;
  if not_name interface_name
  then mac ← py_getitem interface "mac";
       e ← interface_not_found mac;
       Raise e
  else py_setitem interface "name"
         (VStr (default EmptyString interface_name)).

(** [add_interface_names(interfaces)].  The records are changed in place:
    the second component is the content of the list when the call returns
    or raises, and a returned list is that same list.  The records are
    distinct objects, as [json.loads] builds them. *)
Fixpoint add_interface_names (interfaces : list value)
  : result (list value) * list value :=
  match interfaces with
  | [] => (Ok [], [])
  | interface :: interfaces' =>
      match add_interface_name interface with
      | Ok named =>
          let (r, after) := add_interface_names interfaces' in
          (match r with
           | Ok l => Ok (named :: l)
           | Raise e => Raise e
           end,
           named :: after)
      | Raise e => (Raise e, interface :: interfaces')
      end
  end.

(** The translation of the record at index [k]: element 0 is the public
    interface, the others are private. *)
Definition translate (k : nat) (interface : value) : result value :=
  match k with
  | O => generate_public_network_interface macs_to_nic interface
  | S _ => generate_private_network_interface macs_to_nic interface
  end.

(** The record [d] with its name written in. *)
Definition named_record (name : string) (d d' : list (string * value))
  : Prop :=
  ∀ k, dict_get k d'
       = if String.eqb k "name" then Some (VStr name) else dict_get k d.

(** The private stanza of a record [d] with name [name] whose primary
    address is [address] and [netmask]. *)
Definition private_stanza (name : string) (address netmask : value)
    (d : list (string * value)) : value :=
  VDict
    ([("name", VStr name);
      ("type", VStr "physical");
      ("mac_address", default VNone (dict_get "mac" d));
      ("subnets",
       VList [VDict ([("type", VStr "static"); ("control", VStr "auto");
                      ("address", address); ("netmask", netmask)]
                     ++ opt_field "routes" (dict_get "routes" d))])]
     ++ opt_field "mtu" (dict_get "mtu" d)
     ++ opt_field "accept-ra" (dict_get "accept-ra" d)).
End InterfaceNames.

(** ** What the orchestrator leaves behind *)

(** Every event that [m] adds to the trace satisfies [P]. *)
Definition emits {A} (P : event → Prop) (m : M A) : Prop :=
  ∀ w, ∃ evs, trace (m w).2 = trace w ++ evs ∧ Forall P evs.

(** A command run or a request sent, as opposed to the lease events. *)
Definition is_call (e : event) : bool :=
  match e with
  | Subp _ | ReadUrl _ => true
  | _ => false
  end.

(** A lease is only ever requested on an enumerated interface that the
    loop does not skip, with the metadata URL as connectivity hint. *)
Definition leases_candidates (env : Env) (url : string) (e : event) : Prop :=
  match e with
  | DhcpEnter name u =>
      ¬ is_skipped name ∧ u = url
      ∧ ∃ iface, iface ∈ net_get_interfaces env ∧ if_name iface = name
  | _ => True
  end.

(** The cache of [lru_cache]: one entry per key, 128 entries at most. *)
Definition cache_ok (w : world) : Prop :=
  NoDup (cache w).*1 ∧ (length (cache w) ≤ lru_maxsize)%nat.

(** The outcome of [read_metadata] when the lease is held by [l]. *)
Definition fetch_outcome (env : Env) (l : option string) (url : string)
    (timeout retries sec_between : Z) (agent : string) : result string :=
  match url_helper_readurl env l
          (metadata_request url timeout retries sec_between agent) with
  | Ok resp =>
      if ok resp then contents_decode resp
      else Raise (TypeError "not enough arguments for format string")
  | Raise e => Raise e
  end.

(** ** More sample data *)

(** A private record without the [ipv4] key. *)
Definition sample_private_no_ipv4 : value := VDict [("mac", VStr "BB")].

(** A world whose cache holds a document for the sample arguments. *)
Definition cached_world : world :=
  {| lease := None;
     trace := [];
     cache := [((sample_url, 10, 3, 5, sample_agent),
                VDict [("interfaces", VList [])])] |}.

(** * Properties *)
(** ** Properties of the network configuration *)

Section DictFacts.
Context {A : Type}.
Implicit Types (d : list (string * A)) (k : string) (v : A).

Lemma dict_get_set_eq k v d : dict_get k (dict_set k v d) = Some v.
Proof.
  induction d as [|[k' v'] d IH]; simpl.
  - by rewrite String.eqb_refl.
  - destruct (String.eqb k k') eqn:E; simpl.
    + by rewrite String.eqb_refl.
    + by rewrite E.
Qed.

Lemma dict_set_set_eq k v1 v2 d :
  dict_set k v2 (dict_set k v1 d) = dict_set k v2 d.
Proof.
  induction d as [|[k' v'] d IH]; simpl.
  - by rewrite String.eqb_refl.
  - destruct (String.eqb k k') eqn:E; simpl.
    + by rewrite String.eqb_refl.
    + by rewrite E, IH.
Qed.

Lemma dict_set_same k v d : dict_get k d = Some v → dict_set k v d = d.
Proof.
  induction d as [|[k' v'] d IH]; simpl; [done|].
  destruct (String.eqb k k') eqn:E.
  - apply String.eqb_eq in E as ->. by intros [= ->].
  - intros H. by rewrite IH.
Qed.
End DictFacts.

Section NetworkConfigFacts.
Variable macs_to_nic : gmap string string.
Implicit Types (d netcfg : list (string * value)) (interface : value).

Lemma for_each_additional ty adds :
  forallb wf_additional adds = true →
  ∀ netcfg l,
    dict_get "subnets" netcfg = Some (VList l) →
    for_each (add_additional ty) adds netcfg
    = Ok (dict_set "subnets" (VList (l ++ (static_subnet ty <$> adds)))
            netcfg).
Proof.
  induction adds as [|a adds IH]; intros Hwf netcfg l Hl.
  - simpl. by rewrite app_nil_r, dict_set_same.
  - simpl in Hwf. apply andb_prop in Hwf as [Ha Hwf].
    destruct a as [| | | | |a]; try discriminate.
    apply andb_prop in Ha as [Haddr Hmask].
    unfold dict_has in Haddr, Hmask.
    destruct (dict_get "address" a) as [addr|] eqn:Eaddr; [|discriminate].
    destruct (dict_get "netmask" a) as [mask|] eqn:Emask; [|discriminate].
    cbn [for_each]. unfold add_additional at 1.
    cbn -[for_each dict_set dict_get String.eqb]. rewrite Eaddr, Emask.
    cbn -[for_each dict_set dict_get String.eqb]. unfold dict_has.
    destruct (dict_get "routes" a) as [r|] eqn:Er;
      cbn -[for_each dict_set dict_get String.eqb];
      unfold append_subnet; cbn -[for_each dict_set dict_get String.eqb];
      rewrite Hl; cbn -[for_each dict_set dict_get String.eqb];
      (erewrite IH; [|done|apply dict_get_set_eq]);
      rewrite dict_set_set_eq, <- app_assoc; cbn; by rewrite ?Er.
Qed.

Lemma additionals_Some family interface adds :
  additionals family interface = Some adds →
  ∃ d ip, interface = VDict d ∧ dict_get family d = Some (VDict ip)
          ∧ dict_get "additional" ip = Some (VList adds).
Proof.
  unfold additionals. destruct interface as [| | | | |d]; try done.
  destruct (dict_get family d) as [[| | | | |ip]|] eqn:E; try done.
  destruct (dict_get "additional" ip) as [[| | | |l|]|] eqn:E'; try done.
  intros [= ->]. eauto.
Qed.

Lemma add_additionals_wf family ty interface adds netcfg l :
  additionals family interface = Some adds →
  forallb wf_additional adds = true →
  dict_get "subnets" netcfg = Some (VList l) →
  add_additionals family ty interface netcfg
  = Ok (dict_set "subnets" (VList (l ++ (static_subnet ty <$> adds)))
          netcfg).
Proof.
  intros (d & ip & -> & Hip & Hadd)%additionals_Some Hwf Hl.
  unfold add_additionals. cbn -[for_each]. unfold dict_has.
  rewrite Hip. cbn -[for_each]. rewrite Hadd. cbn -[for_each].
  case_bool_decide.
  - by apply for_each_additional.
  - destruct adds; [|simpl in *; lia].
    simpl. by rewrite app_nil_r, dict_set_same.
Qed.

Lemma resolved_name_Some interface name :
  resolved_name macs_to_nic interface = Some name →
  ∃ d mac, interface = VDict d ∧ dict_get "mac" d = Some (VStr mac)
           ∧ macs_to_nic !! mac = Some name ∧ String.eqb name "" = false.
Proof.
  unfold resolved_name. destruct interface as [| | | | |d]; try done.
  destruct (dict_get "mac" d) as [[| | |mac| |]|] eqn:E; try done.
  destruct (macs_to_nic !! mac) as [n|] eqn:E'; try done.
  destruct (String.eqb n "") eqn:E''; try done.
  intros [= ->]. eauto 10.
Qed.

(** The public translation of a well-formed record with a name. *)
Lemma generate_public_wf interface name :
  resolved_name macs_to_nic interface = Some name →
  wf_public interface = true →
  generate_public_network_interface macs_to_nic interface
  = Ok (public_stanza name interface).
Proof.
  intros (d & mac & -> & Hmac & Hname & Hne)%resolved_name_Some Hwf.
  unfold wf_public in Hwf.
  destruct (additionals "ipv4" (VDict d)) as [a4|] eqn:E4; [|done].
  destruct (additionals "ipv6" (VDict d)) as [a6|] eqn:E6; [|done].
  apply andb_prop in Hwf as [Hwf4 Hwf6].
  unfold public_stanza. rewrite E4, E6, Hmac.
  unfold generate_public_network_interface.
  cbn -[add_additionals copy_options not_name]. rewrite Hmac.
  cbn -[add_additionals copy_options not_name]. rewrite Hname.
  cbn -[add_additionals copy_options not_name]. unfold not_name, truthy; rewrite Hne.
  unfold copy_options. cbn -[add_additionals]. unfold dict_has.
  destruct (dict_get "mtu" d) as [mtu|];
    destruct (dict_get "accept-ra" d) as [ra|];
    destruct (dict_get "routes" d) as [routes|];
    cbn -[add_additionals];
    (erewrite add_additionals_wf; [|done..|reflexivity]);
    cbn -[add_additionals];
    (erewrite add_additionals_wf; [|done..|reflexivity]);
    cbn; by rewrite <- ?app_assoc.
Qed.

Lemma generate_private_wf interface name :
  resolved_name macs_to_nic interface = Some name →
  wf_private interface = true →
  is_ok (generate_private_network_interface macs_to_nic interface) = true.
Proof.
  intros (d & mac & -> & Hmac & Hname & Hne)%resolved_name_Some Hwf.
  unfold wf_private, dict_has in Hwf.
  destruct (dict_get "ipv4" d) as [[| | | | |ip]|] eqn:E4; try done.
  destruct (dict_get "address" ip) as [addr|] eqn:Ea; [|done].
  destruct (dict_get "netmask" ip) as [mask|] eqn:Em; [|done].
  unfold generate_private_network_interface.
  cbn -[copy_options not_name]. rewrite Hmac.
  cbn -[copy_options not_name]. rewrite Hname.
  cbn -[copy_options not_name]. unfold not_name, truthy; rewrite Hne, E4.
  cbn -[copy_options not_name]. rewrite Ea, Em.
  unfold copy_options. cbn. unfold dict_has.
  by destruct (dict_get "mtu" d), (dict_get "accept-ra" d),
    (dict_get "routes" d).
Qed.

Lemma unresolved_mac_Some interface mac :
  unresolved_mac macs_to_nic interface = Some mac →
  ∃ d, interface = VDict d ∧ dict_get "mac" d = Some (VStr mac)
       ∧ not_name (macs_to_nic !! mac) = true.
Proof.
  unfold unresolved_mac, resolved_name.
  destruct interface as [| | | | |d]; try done.
  destruct (dict_get "mac" d) as [[| | |m| |]|] eqn:E; try done.
  destruct (macs_to_nic !! m) as [n|] eqn:E'; simpl.
  - destruct (String.eqb n "") eqn:E''; [|done]. intros [= <-].
    exists d. unfold not_name, truthy. by rewrite E', E''.
  - intros [= <-]. exists d. by rewrite E'.
Qed.

Lemma percent_not_found mac :
  percent "Interface: %s could not be found on the system" [mac]
  = Ok ("Interface: " +:+ mac +:+ " could not be found on the system").
Proof. reflexivity. Qed.

Lemma generate_public_unresolved interface mac :
  unresolved_mac macs_to_nic interface = Some mac →
  generate_public_network_interface macs_to_nic interface
  = Raise (not_found_error mac).
Proof.
  intros (d & -> & Hmac & Hno)%unresolved_mac_Some.
  unfold generate_public_network_interface.
  cbn -[add_additionals copy_options percent not_name]. rewrite Hmac.
  cbn -[add_additionals copy_options percent not_name]. rewrite Hno.
  cbn -[add_additionals copy_options percent not_name].
  by rewrite percent_not_found.
Qed.

Lemma generate_private_unresolved interface mac :
  unresolved_mac macs_to_nic interface = Some mac →
  generate_private_network_interface macs_to_nic interface
  = Raise (not_found_error mac).
Proof.
  intros (d & -> & Hmac & Hno)%unresolved_mac_Some.
  unfold generate_private_network_interface.
  cbn -[copy_options percent not_name]. rewrite Hmac.
  cbn -[copy_options percent not_name]. rewrite Hno.
  cbn -[copy_options percent not_name].
  by rewrite percent_not_found.
Qed.

Lemma append_private_ok config interface p :
  generate_private_network_interface macs_to_nic interface = Ok p →
  append_private macs_to_nic config interface = Ok (config ++ [p]).
Proof. unfold append_private. by intros ->. Qed.

Lemma append_private_raise config interface e :
  generate_private_network_interface macs_to_nic interface = Raise e →
  append_private macs_to_nic config interface = Raise e.
Proof. unfold append_private. by intros ->. Qed.

Lemma private_loop_ok interfaces :
  Forall (λ i, is_ok (generate_private_network_interface macs_to_nic i)
               = true) interfaces →
  ∀ config, ∃ privates,
    for_each (append_private macs_to_nic) interfaces config
    = Ok (config ++ privates)
    ∧ Forall2 (λ i p, generate_private_network_interface macs_to_nic i
                      = Ok p) interfaces privates.
Proof.
  induction 1 as [|i interfaces Hi _ IH]; intros config.
  - exists []. by rewrite app_nil_r.
  - destruct (generate_private_network_interface macs_to_nic i)
      as [p|] eqn:Ep; [|done].
    destruct (IH (config ++ [p])) as (ps & Hps & Hall).
    exists (p :: ps). split; [|by constructor].
    cbn [for_each]. rewrite (append_private_ok _ _ p Ep).
    cbn [mbind result_bind]. by rewrite Hps, <- app_assoc.
Qed.

Lemma private_loop_raise interfaces k i e :
  interfaces !! k = Some i →
  generate_private_network_interface macs_to_nic i = Raise e →
  (∀ j ij, (j < k)%nat → interfaces !! j = Some ij →
     is_ok (generate_private_network_interface macs_to_nic ij) = true) →
  ∀ config,
    for_each (append_private macs_to_nic) interfaces config = Raise e.
Proof.
  revert k. induction interfaces as [|i0 interfaces IH];
    intros k Hk He Hbefore config; [done|].
  destruct k as [|k]; simpl in Hk.
  - injection Hk as ->. cbn [for_each].
    by rewrite (append_private_raise _ _ e He).
  - specialize (Hbefore 0%nat i0 ltac:(lia) eq_refl) as H0.
    destruct (generate_private_network_interface macs_to_nic i0)
      as [p|] eqn:E0; [|done].
    cbn [for_each]. rewrite (append_private_ok _ _ p E0).
    cbn [mbind result_bind]. apply (IH k); [done..|].
    intros j ij Hj Hij. apply (Hbefore (S j)); [lia|done].
Qed.

Lemma private_loop_not_ok interfaces k i :
  interfaces !! k = Some i →
  is_ok (generate_private_network_interface macs_to_nic i) = false →
  ∀ config,
    is_ok (for_each (append_private macs_to_nic) interfaces config)
    = false.
Proof.
  revert k. induction interfaces as [|i0 interfaces IH];
    intros k Hk He config; [done|].
  cbn [for_each].
  destruct (generate_private_network_interface macs_to_nic i0)
    as [p|e0] eqn:E0.
  - rewrite (append_private_ok _ _ p E0). cbn [mbind result_bind].
    destruct k as [|k]; simpl in Hk.
    + injection Hk as ->. by rewrite E0 in He.
    + by apply (IH k).
  - by rewrite (append_private_raise _ _ e0 E0).
Qed.

Lemma resolves_true interface :
  resolves macs_to_nic interface = true →
  ∃ name, resolved_name macs_to_nic interface = Some name.
Proof.
  unfold resolves. intros [name Hname]%bool_decide_eq_true. eauto.
Qed.

Lemma add_additionals_no_family family ty d netcfg :
  dict_get family d = None →
  add_additionals family ty (VDict d) netcfg = Raise (KeyError family).
Proof. intros H. unfold add_additionals. cbn. by rewrite H. Qed.

Lemma add_additionals_no_additional family ty d ip netcfg :
  dict_get family d = Some (VDict ip) →
  dict_get "additional" ip = None →
  add_additionals family ty (VDict d) netcfg
  = Raise (KeyError "additional").
Proof.
  intros H H'. unfold add_additionals. cbn. rewrite H. cbn. by rewrite H'.
Qed.

(** The options never fail on the public template and leave its list of
    subnets in place. *)
Lemma copy_options_public d name mac :
  ∃ netcfg l,
    copy_options (VDict d)
      [("name", VStr name); ("type", VStr "physical");
       ("mac_address", mac); ("accept-ra", VInt 1);
       ("subnets",
        VList [VDict [("type", VStr "dhcp"); ("control", VStr "auto")];
               VDict [("type", VStr "ipv6_slaac");
                      ("control", VStr "auto")]])]
    = Ok netcfg
    ∧ dict_get "subnets" netcfg = Some (VList l).
Proof.
  unfold copy_options. cbn. unfold dict_has.
  destruct (dict_get "mtu" d), (dict_get "accept-ra" d),
    (dict_get "routes" d); cbn; eauto.
Qed.

(** C10. A public record whose MAC address has a name and that lacks the
    [ipv4] key, the [ipv6] key or the [additional] key of one of them is
    not translated: the lookup of the missing key raises [KeyError],
    since the length of the list is taken before the guard is tested. *)
Theorem public_additional_lists_mandatory interface name key :
  resolved_name macs_to_nic interface = Some name →
  lacks_additional interface key →
  generate_public_network_interface macs_to_nic interface
  = Raise (KeyError key).
Proof.
  intros (d & mac & -> & Hmac & Hname & Hne)%resolved_name_Some Hlacks.
  unfold generate_public_network_interface.
  cbn -[add_additionals copy_options not_name]. rewrite Hmac.
  cbn -[add_additionals copy_options not_name]. rewrite Hname.
  cbn -[add_additionals copy_options not_name]. unfold not_name, truthy; rewrite Hne.
  destruct (copy_options_public d name (VStr mac))
    as (netcfg & l & -> & Hl).
  cbn -[add_additionals].
  destruct Hlacks as [d' [= <-] H4|d' ip [= <-] H4 Hadd
                     |d' a4 [= <-] H4 Hwf H6
                     |d' a4 ip [= <-] H4 Hwf H6 Hadd].
  - by rewrite add_additionals_no_family.
  - by erewrite add_additionals_no_additional.
  - erewrite add_additionals_wf by done. cbn -[add_additionals].
    by rewrite add_additionals_no_family.
  - erewrite add_additionals_wf by done. cbn -[add_additionals].
    by erewrite add_additionals_no_additional.
Qed.

(** The private translation of a well-formed record with a name. *)
Lemma generate_private_wf_stanza interface name :
  resolved_name macs_to_nic interface = Some name →
  wf_private interface = true →
  ∃ d ip address netmask,
    interface = VDict d
    ∧ dict_get "ipv4" d = Some (VDict ip)
    ∧ dict_get "address" ip = Some address
    ∧ dict_get "netmask" ip = Some netmask
    ∧ generate_private_network_interface macs_to_nic interface
      = Ok (private_stanza name address netmask d).
Proof.
  intros (d & mac & -> & Hmac & Hname & Hne)%resolved_name_Some Hwf.
  unfold wf_private, dict_has in Hwf.
  destruct (dict_get "ipv4" d) as [[| | | | |ip]|] eqn:E4; try done.
  destruct (dict_get "address" ip) as [addr|] eqn:Ea; [|done].
  destruct (dict_get "netmask" ip) as [mask|] eqn:Em; [|done].
  exists d, ip, addr, mask. split_and!; try done.
  unfold generate_private_network_interface.
  cbn -[copy_options not_name]. rewrite Hmac.
  cbn -[copy_options not_name]. rewrite Hname.
  cbn -[copy_options not_name]. unfold not_name, truthy; rewrite Hne, E4.
  cbn -[copy_options]. rewrite Ea, Em.
  unfold copy_options, private_stanza. cbn. unfold dict_has. rewrite Hmac.
  by destruct (dict_get "mtu" d), (dict_get "accept-ra" d),
    (dict_get "routes" d).
Qed.

(** C1. For an interface list whose MAC addresses all have a name (and
    whose records carry what the translations read),
    [generate_network_config] returns a document with version 1 whose
    configuration is the nameserver stanza, of type [nameserver] with the
    address [108.61.10.10], then the public stanza of element 0 when there
    is one, then the private stanzas of the other elements in their order;
    for the empty list it is the nameserver stanza alone. *)
Theorem generate_network_config_stanzas interfaces :
  wf_interfaces macs_to_nic interfaces = true →
  ∃ stanzas,
    generate_network_config macs_to_nic interfaces
    = Ok (VDict [("version", VInt 1);
                 ("config",
                  VList (VDict [("type", VStr "nameserver");
                                ("address", VList [VStr "108.61.10.10"])]
                         :: stanzas))])
    ∧ match interfaces with
      | [] => stanzas = []
      | interface0 :: others =>
          ∃ name0 privates,
            resolved_name macs_to_nic interface0 = Some name0
            ∧ stanzas = public_stanza name0 interface0 :: privates
            ∧ Forall2
                (λ i p, ∃ d name ip address netmask,
                   i = VDict d
                   ∧ resolved_name macs_to_nic i = Some name
                   ∧ dict_get "ipv4" d = Some (VDict ip)
                   ∧ dict_get "address" ip = Some address
                   ∧ dict_get "netmask" ip = Some netmask
                   ∧ p = private_stanza name address netmask d)
                others privates
      end.
Proof.
  destruct interfaces as [|i0 others]; intros Hwf.
  - by exists [].
  - simpl in Hwf. apply andb_prop in Hwf as [[Hres Hpub]%andb_prop Hrest].
    apply resolves_true in Hres as [name Hname].
    pose proof (generate_public_wf _ _ Hname Hpub) as Hp.
    rewrite forallb_forall in Hrest.
    destruct (private_loop_ok others) with
      (config := [nameserver; public_stanza name i0])
      as (privates & Hloop & Hall).
    { apply Forall_forall. intros i Hi.
      apply list_elem_of_In, Hrest in Hi.
      apply andb_prop in Hi as [[n Hn]%resolves_true Hpriv].
      by eapply generate_private_wf. }
    exists (public_stanza name i0 :: privates). split.
    + unfold generate_network_config. rewrite Hp.
      cbn -[nameserver for_each]. rewrite drop_0, Hloop. done.
    + exists name, privates. split_and!; [done..|].
      assert (Forall (λ i, resolves macs_to_nic i && wf_private i = true)
                others) as Hothers.
      { apply Forall_forall. intros i Hi. by apply Hrest, list_elem_of_In. }
      clear -Hall Hothers.
      induction Hall as [|i p others privates Hi _ IH]; [constructor|].
      apply Forall_cons in Hothers as [Hwf Hothers].
      constructor; [|by apply IH].
      apply andb_prop in Hwf as [[n Hn]%resolves_true Hpriv].
      destruct (generate_private_wf_stanza i n Hn Hpriv)
        as (d & ip & address & netmask & -> & H4 & Ha & Hm & Hgen).
      exists d, n, ip, address, netmask. split_and!; try done. congruence.
Qed.

(** C2. When some record of the list has a MAC address without a name,
    [generate_network_config] returns no document; when the records
    before it are well formed and have names, the exception is the
    [RuntimeError] that names this MAC address. *)
Theorem unresolved_interface_aborts interfaces k interface mac :
  interfaces !! k = Some interface →
  unresolved_mac macs_to_nic interface = Some mac →
  is_ok (generate_network_config macs_to_nic interfaces) = false
  ∧ (wf_interfaces macs_to_nic (take k interfaces) = true →
     generate_network_config macs_to_nic interfaces
     = Raise (not_found_error mac)).
Proof.
  intros Hk Hmac. unfold generate_network_config.
  destruct interfaces as [|i0 others]; [done|].
  destruct k as [|k]; simpl in Hk.
  - injection Hk as ->.
    by rewrite (generate_public_unresolved _ _ Hmac).
  - pose proof (generate_private_unresolved _ _ Hmac) as Hraise.
    split.
    + destruct (generate_public_network_interface macs_to_nic i0);
        [|done].
      cbn -[nameserver for_each]. rewrite drop_0.
      pose proof (private_loop_not_ok others k interface Hk)
        as Hloop.
      rewrite Hraise in Hloop. specialize (Hloop eq_refl).
      match goal with
      | |- context [for_each ?f ?l ?c] =>
          specialize (Hloop c); destruct (for_each f l c)
      end; done.
    + intros Hwf. simpl in Hwf.
      apply andb_prop in Hwf as [[Hres Hpub]%andb_prop Hrest].
      apply resolves_true in Hres as [name Hname].
      rewrite (generate_public_wf _ _ Hname Hpub).
      cbn -[nameserver for_each]. rewrite drop_0.
      erewrite private_loop_raise; [done..|].
      intros j ij Hj Hij. rewrite forallb_forall in Hrest.
      assert (In ij (take k others)) as Hin.
      { apply list_elem_of_In, list_elem_of_lookup. exists j.
        by rewrite lookup_take_lt. }
      apply Hrest, andb_prop in Hin as [[n Hn]%resolves_true Hpriv].
      by eapply generate_private_wf.
Qed.
End NetworkConfigFacts.

Section StringFacts.
Lemma app_String c a b : String c a +:+ b = String c (a +:+ b).
Proof. reflexivity. Qed.

Lemma app_empty_l b : "" +:+ b = b.
Proof. reflexivity. Qed.

Lemma app_empty_r a : a +:+ "" = a.
Proof. induction a as [|c a IH]; [done|]. by rewrite app_String, IH. Qed.

Lemma app_assoc_s a b c : a +:+ (b +:+ c) = (a +:+ b) +:+ c.
Proof.
  induction a as [|x a IH]; [done|]. by rewrite !app_String, IH.
Qed.

Lemma prefix_spec n s :
  String.prefix n s = true ↔ ∃ b, s = n +:+ b.
Proof.
  revert s. induction n as [|c n IH]; intros [|c' s]; simpl.
  - split; [by exists ""|done].
  - split; [by exists (String c' s)|done].
  - split; [done|intros [b Hb]; done].
  - destruct (Ascii.ascii_dec c c') as [->|Hne].
    + rewrite IH. split; intros [b Hb]; exists b;
        rewrite app_String in *; congruence.
    + split; [done|]. intros [b Hb]. rewrite app_String in Hb.
      congruence.
Qed.

Lemma str_contains_spec n s :
  str_contains n s = true ↔ ∃ a b, s = a +:+ n +:+ b.
Proof.
  induction s as [|c s IH]; cbn [str_contains].
  - rewrite orb_false_r, prefix_spec. split.
    + intros [b Hb]. by exists "", b.
    + intros ([|c a] & b & Hab); [by exists b|done].
  - rewrite orb_true_iff, prefix_spec, IH. split.
    + intros [[b Hb]|(a & b & Hab)].
      * by exists "", b.
      * exists (String c a), b. by rewrite app_String, Hab.
    + intros ([|c' a] & b & Hab).
      * left. by exists b.
      * right. exists a, b. rewrite app_String in Hab. congruence.
Qed.
End StringFacts.

Section Frames.
Variable env : Env.

Lemma framed_ret {A} (a : A) : framed (mret a).
Proof.
  intros l. exists (Ok a), []. intros [l' t c] <-. simpl.
  by rewrite app_nil_r.
Qed.

Lemma framed_lift {A} (r : result A) : framed (lift r).
Proof.
  intros l. exists r, []. intros [l' t c] <-. unfold lift. simpl.
  by rewrite app_nil_r.
Qed.

Lemma framed_raise {A} (e : exn) : framed (raise (A := A) e).
Proof.
  intros l. exists (Raise e), []. intros [l' t c] <-. unfold raise. simpl.
  by rewrite app_nil_r.
Qed.

Lemma framed_emit e : framed (emit e).
Proof. intros l. exists (Ok ()), [e]. by intros [l' t c] <-. Qed.

Lemma framed_ask {A} (f : option string → result A) : framed (ask f).
Proof.
  intros l. exists (f l), []. intros [l' t c] <-. unfold ask. simpl.
  by rewrite app_nil_r.
Qed.

Lemma framed_bind {A B} (m : M A) (f : A → M B) :
  framed m → (∀ a, framed (f a)) → framed (m ≫= f).
Proof.
  intros Hm Hf l. destruct (Hm l) as (r & evs & Hr).
  destruct r as [a|e].
  - destruct (Hf a l) as (r' & evs' & Hr').
    exists r', (evs ++ evs'). intros w Hw.
    unfold mbind, M_bind. rewrite (Hr w Hw), Hr' by done. simpl.
    by rewrite app_assoc.
  - exists (Raise e), evs. intros w Hw.
    unfold mbind, M_bind. by rewrite (Hr w Hw).
Qed.

Lemma framed_subp cmd : framed (subp env cmd).
Proof.
  unfold subp. apply framed_bind; [apply framed_emit|]. intros _.
  destruct (subp_subp env cmd); [apply framed_raise|apply framed_ret].
Qed.

Lemma framed_set_route iface : framed (set_route env iface).
Proof.
  unfold set_route, route_info.
  apply framed_bind; [apply framed_ask|]. intros routes.
  destruct (routes !! "ipv4"); [|apply framed_ret].
  apply framed_bind; [apply framed_lift|]. intros dests. cbv zeta.
  repeat case_match; auto using framed_ret, framed_subp.
Qed.

Lemma framed_read_metadata url timeout retries sec_between agent :
  framed (read_metadata env url timeout retries sec_between agent).
Proof.
  unfold read_metadata, readurl.
  apply framed_bind; [apply framed_lift|]. intros url'.
  apply framed_bind.
  { apply framed_bind; [apply framed_emit|]. intros _. apply framed_ask. }
  intros resp. destruct (negb (ok resp)); [|apply framed_lift].
  apply framed_bind; [apply framed_lift|]. intros msg.
  apply framed_raise.
Qed.

Lemma with_EphemeralDHCPv4_frame {A} iface url (body : M A) :
  framed body →
  ∃ r evs, ∀ w,
    with_EphemeralDHCPv4 env iface url body w
    = (r, {| lease := match dhcp_obtain_lease env iface with
                      | Some _ => lease w
                      | None => None
                      end;
             trace := trace w ++ evs;
             cache := cache w |}).
Proof.
  intros Hbody. unfold with_EphemeralDHCPv4.
  destruct (dhcp_obtain_lease env iface) as [e|].
  - by exists (Raise e), [DhcpEnter iface url].
  - destruct (Hbody (Some iface)) as (r & evs & Hr).
    exists r, ([DhcpEnter iface url] ++ evs ++ [DhcpExit iface]).
    intros w. unfold mbind, M_bind, emit.
    rewrite Hr by done. unfold add_event, set_lease. simpl.
    by rewrite <- !app_assoc.
Qed.

(** One attempt does not depend on the trace or on the cache. *)
Lemma attempt_frame iface url timeout retries sec_between agent w :
  ∃ w',
    attempt env (if_name iface) url timeout retries sec_between agent w
    = (attempt_result env url timeout retries sec_between agent iface, w')
    ∧ trace w'
      = trace w
        ++ trace (attempt env (if_name iface) url timeout retries
                    sec_between agent fresh_world).2
    ∧ cache w' = cache w
    ∧ (lease w = None → lease w' = None).
Proof.
  unfold attempt_result, attempt.
  match goal with
  | |- context [with_EphemeralDHCPv4 _ _ _ ?body] =>
      destruct (with_EphemeralDHCPv4_frame (if_name iface) url body)
        as (r & evs & Hr)
  end.
  { apply framed_bind; [apply (framed_set_route (if_name iface))|].
    intros _.
    apply framed_bind;
      [apply (framed_read_metadata url timeout retries sec_between agent)|].
    intros v1. apply framed_lift. }
  rewrite !Hr. simpl. eexists. split; [done|]. simpl.
  split_and!; [done..|]. intros ->. by destruct (dhcp_obtain_lease _ _).
Qed.
End Frames.

Section Orchestrator.
Variable env : Env.
Variables (url : string) (timeout retries sec_between : Z) (agent : string).

Local Abbreviation loop ifaces exception :=
  (get_metadata_loop env ifaces exception
     url timeout retries sec_between agent).
Local Abbreviation events_of tried :=
  (concat (attempt_events env url timeout retries sec_between agent
           <$> tried)).

Lemma attempt_events_ok iface doc :
  attempt_result env url timeout retries sec_between agent iface = Ok doc →
  attempt_events env url timeout retries sec_between agent iface
  = trace (attempt env (if_name iface) url timeout retries sec_between
             agent fresh_world).2.
Proof. unfold attempt_events. intros ->. by rewrite app_nil_r. Qed.

Lemma attempt_events_caught iface exc :
  fails_with env url timeout retries sec_between agent iface exc →
  attempt_events env url timeout retries sec_between agent iface
  = trace (attempt env (if_name iface) url timeout retries sec_between
             agent fresh_world).2 ++ [LogError exc].
Proof. unfold attempt_events. by intros [-> ->]. Qed.

Lemma loop_skip iface ifaces exception :
  is_skipped (if_name iface) →
  loop (iface :: ifaces) exception = loop ifaces exception.
Proof.
  intros [Hlo|Hdummy]; simpl.
  - rewrite Hlo. by destruct (str_contains "dummy" "lo").
  - apply str_contains_spec in Hdummy. by rewrite Hdummy.
Qed.

Lemma loop_keep iface ifaces exception :
  ¬ is_skipped (if_name iface) →
  loop (iface :: ifaces) exception
  = try_except
      (attempt env (if_name iface) url timeout retries sec_between agent)
      (λ exc, emit (LogError exc);; loop ifaces exc).
Proof.
  intros Hno. cbn [get_metadata_loop].
  destruct (str_contains "dummy" (if_name iface)) eqn:Hd.
  { destruct Hno. right. by apply str_contains_spec. }
  destruct (String.eqb "lo" (if_name iface)) eqn:Hlo; [|done].
  destruct Hno. left. symmetry. by apply String.eqb_eq.
Qed.

(** The loop passes over interfaces that are skipped or whose attempt
    fails with a caught exception, and keeps the last of these. *)
Lemma loop_over_failures pre tried :
  candidates_of pre tried →
  ∀ errs rest exception w,
    Forall2 (fails_with env url timeout retries sec_between agent)
      tried errs →
    ∃ w',
      loop (pre ++ rest) exception w
      = loop rest (default exception (last errs)) w'
      ∧ trace w' = trace w ++ events_of tried
      ∧ cache w' = cache w
      ∧ (lease w = None → lease w' = None).
Proof.
  induction 1 as [|iface ifaces tried Hskip _ IH
                  |iface ifaces tried Hkeep _ IH];
    intros errs rest exception w Herrs.
  - apply Forall2_nil_inv_l in Herrs as ->. exists w.
    simpl. by rewrite app_nil_r.
  - destruct (IH errs rest exception w Herrs) as (w' & Hw' & ?).
    exists w'. split; [|done].
    by rewrite <- app_comm_cons, loop_skip.
  - apply Forall2_cons_inv_l in Herrs
      as (exc & errs' & [Hexc Hcaught] & Herrs & ->).
    destruct (attempt_frame env iface url timeout retries sec_between
                agent w) as (w1 & Hw1 & Ht1 & Hc1 & Hl1).
    destruct (IH errs' rest exc (add_event (LogError exc) w1) Herrs)
      as (w' & Hw' & Ht' & Hc' & Hl').
    exists w'. split_and!.
    + rewrite <- app_comm_cons, loop_keep by done.
      unfold try_except. rewrite Hw1, Hexc, Hcaught.
      unfold mbind, M_bind, emit. rewrite Hw'.
      by rewrite last_cons; destruct (last errs').
    + rewrite Ht'. cbn [trace add_event fmap list_fmap concat].
      rewrite Ht1, (attempt_events_caught iface exc) by done.
      by rewrite <- !app_assoc.
    + by rewrite Hc'.
    + intros Hl. apply Hl'. simpl. auto.
Qed.

Lemma lru_cache_miss key body w :
  cached key w = None →
  lru_cache key body w
  = match body w with
    | (Ok v, w') =>
        (Ok v, set_cache (take lru_maxsize ((key, v) :: cache w')) w')
    | (Raise e, w') => (Raise e, w')
    end.
Proof.
  unfold cached, lru_cache. intros Hmiss%fmap_None. by rewrite Hmiss.
Qed.

(** C6, as the code has it. The loop skips the interfaces named [lo] or
    with [dummy] in their name and tries the others in order; when every
    attempt before [iface] failed with [NoDHCPLeaseError] or
    [ProcessExecutionError] and the attempt on [iface] succeeds,
    [get_metadata] returns the parsed JSON of [iface], and the calls made
    are those of the attempts up to [iface], none after it. *)
Theorem get_metadata_first_success pre iface post tried doc w :
  net_get_interfaces env = pre ++ iface :: post →
  candidates_of pre tried →
  Forall (λ j, ∃ exc,
            fails_with env url timeout retries sec_between agent j exc)
    tried →
  ¬ is_skipped (if_name iface) →
  attempt_result env url timeout retries sec_between agent iface
  = Ok doc →
  cached (url, timeout, retries, sec_between, agent) w = None →
  ∃ w',
    get_metadata env url timeout retries sec_between agent w = (Ok doc, w')
    ∧ trace w' = trace w ++ events_of (tried ++ [iface]).
Proof.
  intros Hifaces Hcand Hfail Hkeep Hdoc Hmiss.
  assert (∃ errs,
    Forall2 (fails_with env url timeout retries sec_between agent)
      tried errs) as [errs Herrs].
  { clear -Hfail. induction Hfail as [|j tried [exc Hexc] _ [errs IH]].
    - by exists [].
    - exists (exc :: errs). by constructor. }
  destruct (loop_over_failures pre tried Hcand errs (iface :: post)
              (RuntimeError [AStr "Failed to DHCP"]) w Herrs)
    as (w1 & Hw1 & Ht1 & Hc1 & _).
  destruct (attempt_frame env iface url timeout retries sec_between
              agent w1) as (w2 & Hw2 & Ht2 & Hc2 & _).
  unfold get_metadata. rewrite lru_cache_miss by done.
  unfold get_metadata_uncached. rewrite Hifaces, Hw1.
  rewrite loop_keep by done. unfold try_except. rewrite Hw2, Hdoc.
  eexists. split; [done|]. cbn [trace set_cache]. rewrite Ht2, Ht1.
  rewrite fmap_app, concat_app. cbn [fmap list_fmap concat].
  rewrite (attempt_events_ok iface doc) by done.
  by rewrite !app_nil_r, <- !app_assoc.
Qed.

(** C7. When the attempt on every candidate interface fails with a caught
    exception, [get_metadata] raises the last of these exceptions, and
    [RuntimeError("Failed to DHCP")] when there was no candidate. *)
Theorem get_metadata_exhausted tried errs w :
  candidates_of (net_get_interfaces env) tried →
  Forall2 (fails_with env url timeout retries sec_between agent)
    tried errs →
  cached (url, timeout, retries, sec_between, agent) w = None →
  (get_metadata env url timeout retries sec_between agent w).1
  = Raise (default (RuntimeError [AStr "Failed to DHCP"]) (last errs)).
Proof.
  intros Hcand Herrs Hmiss.
  destruct (loop_over_failures _ tried Hcand errs []
              (RuntimeError [AStr "Failed to DHCP"]) w Herrs)
    as (w1 & Hw1 & _).
  unfold get_metadata. rewrite lru_cache_miss by done.
  unfold get_metadata_uncached. rewrite app_nil_r in Hw1.
  by rewrite Hw1.
Qed.

(** C9, as the code has it. After a call of [get_metadata] that returned
    a document, the next call with the same arguments returns the same
    document without any call to DHCP, to the route tools or to the
    network. *)
Theorem get_metadata_memoized doc w w1 :
  get_metadata env url timeout retries sec_between agent w = (Ok doc, w1) →
  ∃ w2,
    get_metadata env url timeout retries sec_between agent w1
    = (Ok doc, w2)
    ∧ trace w2 = trace w1 ∧ lease w2 = lease w1.
Proof.
  unfold get_metadata, lru_cache. intros Hcall.
  assert (∃ c, cache w1
               = ((url, timeout, retries, sec_between, agent), doc) :: c)
    as [c Hc].
  { destruct (list_find _ (cache w)) as [[? [? v]]|].
    - injection Hcall as <- <-. simpl. eauto.
    - destruct (get_metadata_uncached _ _ _ _ _ _ w) as [[v|e] w'];
        [|done].
      injection Hcall as <- <-. simpl. eauto. }
  rewrite Hc. simpl. rewrite decide_True by done. simpl. eauto.
Qed.
End Orchestrator.

Section RouteAndFetch.
Variable env : Env.

Lemma append_destination_Some acc route d :
  route !! "destination" = Some d →
  append_destination acc route = Ok (acc ++ [d]).
Proof. unfold append_destination. by intros ->. Qed.

Lemma append_destination_None acc route :
  route !! "destination" = None →
  append_destination acc route = Raise (KeyError "destination").
Proof. unfold append_destination. by intros ->. Qed.

Lemma destinations_ok routes dests :
  Forall2 (λ route d, route !! "destination" = Some d) routes dests →
  ∀ acc, for_each append_destination routes acc = Ok (acc ++ dests).
Proof.
  induction 1 as [|route d routes dests Hd _ IH]; intros acc;
    cbn [for_each].
  - by rewrite app_nil_r.
  - rewrite (append_destination_Some _ _ d Hd).
    cbn [mbind result_bind]. by rewrite IH, <- app_assoc.
Qed.

Lemma destinations_inv routes :
  ∀ acc ds,
    for_each append_destination routes acc = Ok ds →
    ∃ dests, ds = acc ++ dests
      ∧ Forall2 (λ route d, route !! "destination" = Some d) routes dests.
Proof.
  induction routes as [|route routes IH]; intros acc ds; cbn [for_each].
  - intros [= <-]. exists []. by rewrite app_nil_r.
  - destruct (route !! "destination") as [d|] eqn:Hd;
      [|by rewrite append_destination_None].
    rewrite (append_destination_Some _ _ d Hd). cbn [mbind result_bind].
    intros (dests & -> & Hall)%IH. exists (d :: dests).
    split; [by rewrite <- app_assoc|by constructor].
Qed.

(** C5, as the code has it. [set_route] runs one command that adds the
    route to [169.254.169.254/32] exactly when the IPv4 table could be
    read, has a route to [100.64.0.0] or [100.64.0.0/10], has none to
    [169.254.169.254], and [ip] or [route] is installed ([ip] first); in
    every other case it runs no command. *)
Theorem set_route_adds_metadata_route iface w :
  ∃ calls,
    trace (set_route env iface w).2 = trace w ++ (Subp <$> calls)
    ∧ ((needs_metadata_route (netinfo_route_info env (lease w))
        ∧ truthy (subp_which env "ip") = true
        ∧ calls = [ip_route_add iface])
       ∨ (needs_metadata_route (netinfo_route_info env (lease w))
          ∧ truthy (subp_which env "ip") = false
          ∧ truthy (subp_which env "route") = true
          ∧ calls = [route_add_net])
       ∨ (¬ (needs_metadata_route (netinfo_route_info env (lease w))
             ∧ (truthy (subp_which env "ip") = true
                ∨ truthy (subp_which env "route") = true))
          ∧ calls = [])).
Proof.
  unfold set_route, route_info, ask, needs_metadata_route.
  unfold mbind at 1, M_bind at 1. cbv beta iota.
  destruct (netinfo_route_info env (lease w)) as [table|e0]; cycle 1.
  { exists []. simpl. rewrite app_nil_r. split; [done|].
    right; right. split; [|done]. by intros [(? & ? & ? & ? & _) _]. }
  destruct (table !! "ipv4") as [routes|] eqn:Htable; cycle 1.
  { exists []. simpl. rewrite app_nil_r. split; [done|].
    right; right. split; [|done].
    intros [(? & ? & ? & [= <-] & ? & _) _]. congruence. }
  unfold mbind at 1, M_bind at 1, lift. cbv beta iota.
  destruct (for_each append_destination routes []) as [ds|e] eqn:Hds;
    cycle 1.
  { exists []. simpl. rewrite app_nil_r. split; [done|].
    right; right. split; [|done].
    intros [(table' & routes' & dests & [= <-] & Ht & Hall & _) _].
    rewrite Htable in Ht. injection Ht as <-.
    rewrite (destinations_ok _ _ Hall) in Hds. done. }
  apply destinations_inv in Hds as (dests & -> & Hall). simpl.
  assert (∀ dests', Forall2 (λ route d, route !! "destination" = Some d)
                      routes dests' → dests' = dests) as Huniq.
  { intros dests' Hall'. revert dests' Hall'. clear -Hall.
    induction Hall as [|route d routes dests Hd _ IH];
      intros dests' Hall'.
    - by apply Forall2_nil_inv_l in Hall'.
    - apply Forall2_cons_inv_l in Hall' as (d' & ? & Hd' & ? & ->).
      f_equal; [congruence|auto]. }
  destruct (negb (bool_decide ("100.64.0.0" ∈ dests)
                  || bool_decide ("100.64.0.0/10" ∈ dests))
            || bool_decide ("169.254.169.254" ∈ dests)) eqn:Hcond.
  { exists []. simpl. rewrite app_nil_r. split; [done|].
    right; right. split; [|done].
    intros [(table' & routes' & dests' & [= <-] & Ht & Hall' & Hgw & Hdest)
              _].
    rewrite Htable in Ht. injection Ht as <-.
    apply Huniq in Hall' as ->.
    apply orb_true_iff in Hcond as [Hc|Hc].
    - apply negb_true_iff, orb_false_iff in Hc as [H1 H2].
      apply bool_decide_eq_false in H1, H2. tauto.
    - by apply bool_decide_eq_true in Hc. }
  apply orb_false_iff in Hcond as [Hgw Hdest].
  apply negb_false_iff, orb_true_iff in Hgw.
  apply bool_decide_eq_false in Hdest.
  assert (∃ table0 routes0 dests0,
            Ok table = Ok table0
            ∧ table0 !! "ipv4" = Some routes0
            ∧ Forall2 (λ route d, route !! "destination" = Some d)
                routes0 dests0
            ∧ ("100.64.0.0" ∈ dests0 ∨ "100.64.0.0/10" ∈ dests0)
            ∧ "169.254.169.254" ∉ dests0) as Hneeds.
  { exists table, routes, dests. split_and!; [done..| |done].
    destruct Hgw as [H%bool_decide_eq_true|H%bool_decide_eq_true]; auto. }
  destruct (truthy (subp_which env "ip")) eqn:Hip.
  { exists [ip_route_add iface]. split; [|by left].
    unfold subp, mbind, M_bind, emit.
    by destruct (subp_subp env _). }
  destruct (truthy (subp_which env "route")) eqn:Hroute.
  { exists [route_add_net]. split; [|by right; left].
    unfold subp, mbind, M_bind, emit.
    by destruct (subp_subp env _). }
  exists []. simpl. rewrite app_nil_r. split; [done|].
  right; right. split; [|done]. by intros [_ [?|?]].
Qed.

Lemma percent_v1 url : percent "%s/v1.json" [url] = Ok (url +:+ "/v1.json").
Proof. reflexivity. Qed.

Lemma percent_failed_to_connect url :
  percent "Failed to connect to %s: Code: %s" [url]
  = Raise (TypeError "not enough arguments for format string").
Proof. reflexivity. Qed.

(** C4, what the code does. When the response is not a success,
    [read_metadata] raises the [TypeError] of the string formatting, not
    a [RuntimeError] with the URL and the status code. *)
Theorem read_metadata_not_ok_raises_TypeError
    url timeout retries sec_between agent w resp :
  url_helper_readurl env (lease w)
    (metadata_request url timeout retries sec_between agent) = Ok resp →
  ok resp = false →
  (read_metadata env url timeout retries sec_between agent w).1
  = Raise (TypeError "not enough arguments for format string").
Proof.
  intros Hresp Hok. unfold read_metadata.
  rewrite percent_v1.
  unfold readurl, ask, emit, lift, mbind, M_bind. cbn [lease add_event].
  fold (metadata_request url timeout retries sec_between agent).
  rewrite Hresp, Hok. cbn [negb]. by rewrite percent_failed_to_connect.
Qed.
End RouteAndFetch.

Section SplitFacts.
Implicit Types (c : N) (w s u pre post word : list N).

Lemma is_space_spec c : is_space c = true ↔ c ∈ unicode_whitespace.
Proof.
  unfold is_space, unicode_whitespace.
  rewrite !orb_true_iff, !andb_true_iff, !N.leb_le, !N.eqb_eq.
  rewrite !elem_of_cons, elem_of_nil. lia.
Qed.

Lemma is_space_false c : is_space c = false ↔ c ∉ unicode_whitespace.
Proof.
  rewrite <- is_space_spec. by destruct (is_space c).
Qed.

Local Abbreviation spaceless u := (Forall (λ c, is_space c = false) u).
Local Abbreviation ends post :=
  (post = [] ∨ ∃ c post', post = c :: post' ∧ is_space c = true).

Lemma split_from_spec s :
  ∀ word w,
    w ∈ split_from word s ↔
      (∃ u post,
         s = u ++ post ∧ w = word ++ u ∧ w ≠ [] ∧ spaceless u ∧ ends post)
      ∨ (∃ pre c u post,
           s = pre ++ c :: u ++ post ∧ is_space c = true
           ∧ w = u ∧ u ≠ [] ∧ spaceless u ∧ ends post).
Proof.
  induction s as [|c s IH]; intros word w.
  - cbn [split_from]. split.
    + intros Hw. left. exists [], [].
      destruct word as [|x word]; [by apply elem_of_nil in Hw|].
      apply list_elem_of_singleton in Hw as ->.
      split_and!; rewrite ?app_nil_r; try done. by left.
    + intros [(u & post & Hs & -> & Hne & _)
             |(pre & c & u & post & Hs & _)].
      * symmetry in Hs. apply app_eq_nil in Hs as [-> ->].
        rewrite app_nil_r in *.
        destruct word; [done|]. by apply list_elem_of_singleton.
      * by destruct pre.
  - cbn [split_from]. destruct (is_space c) eqn:Hc.
    + assert (w ∈ split_from [] s ↔
              ∃ pre c0 u post,
                c :: s = pre ++ c0 :: u ++ post
                ∧ is_space c0 = true ∧ w = u ∧ u ≠ []
                ∧ spaceless u ∧ ends post) as Hrest.
      { rewrite IH. split.
        - intros [(u & post & -> & -> & Hne & Hu & Hpost)
                 |(pre & c0 & u & post & -> & Hc0 & -> & Hne & Hu & Hpost)].
          + by exists [], c, u, post.
          + by exists (c :: pre), c0, u, post.
        - intros (pre & c0 & u & post & Hs & Hc0 & -> & Hne & Hu & Hpost).
          destruct pre as [|x pre]; simpl in Hs; injection Hs as -> ->.
          + left. by exists u, post.
          + right. by exists pre, c0, u, post. }
      assert (w = word ∧ word ≠ [] ↔
              ∃ u post,
                c :: s = u ++ post ∧ w = word ++ u ∧ w ≠ []
                ∧ spaceless u ∧ ends post) as Hword.
      { split.
        - intros [-> Hne]. exists [], (c :: s).
          split_and!; rewrite ?app_nil_r; try done.
          right. by exists c, s.
        - intros (u & post & Hs & -> & Hne & Hu & _).
          destruct u as [|x u].
          + by rewrite app_nil_r in *.
          + simpl in Hs. injection Hs as -> ->.
            apply Forall_cons in Hu as [Hx _]. congruence. }
      rewrite <- Hrest, <- Hword.
      destruct word as [|x word].
      * split; [by right|]. by intros [[_ ?]|?].
      * rewrite elem_of_cons. split.
        -- intros [->|?]; [by left|by right].
        -- intros [[-> _]|?]; [by left|by right].
    + rewrite IH. split.
      * intros [(u & post & -> & -> & Hne & Hu & Hpost)
               |(pre & c0 & u & post & -> & Hc0 & -> & Hne & Hu & Hpost)].
        -- left. exists (c :: u), post.
           rewrite <- app_assoc in *. split_and!; try done.
           by constructor.
        -- right. by exists (c :: pre), c0, u, post.
      * intros [(u & post & Hs & -> & Hne & Hu & Hpost)
               |(pre & c0 & u & post & Hs & Hc0 & -> & Hne & Hu & Hpost)].
        -- left. destruct u as [|x u].
           ++ simpl in Hs. subst post.
              destruct Hpost as [?|(c0 & post' & [= <- <-] & Hc0)];
                [done|congruence].
           ++ simpl in Hs. injection Hs as -> ->.
              exists u, post. apply Forall_cons in Hu as [_ Hu].
              by rewrite <- app_assoc.
        -- destruct pre as [|x pre]; simpl in Hs.
           ++ injection Hs as -> _. congruence.
           ++ injection Hs as -> ->. right. by exists pre, c0, u, post.
Qed.

Lemma spaceless_spec u :
  spaceless u ↔ ∀ c, c ∈ u → c ∉ unicode_whitespace.
Proof.
  rewrite Forall_forall. split; intros H c Hc; apply is_space_false; auto.
Qed.

Lemma ends_spec post : ends post ↔ space_or_end post.
Proof.
  unfold space_or_end.
  split; (intros [->|(c & post' & -> & Hc)]; [by left|right]);
    exists c, post'; by rewrite ?is_space_spec in *.
Qed.

Lemma split_spec w s : w ∈ split s ↔ delimited_word w s.
Proof.
  unfold split, delimited_word. rewrite split_from_spec.
  setoid_rewrite spaceless_spec. setoid_rewrite ends_spec. split.
  - intros [(u & post & -> & -> & Hne & Hu & Hpost)
           |(pre & c & u & post & -> & Hc & -> & Hne & Hu & Hpost)].
    + simpl in *. split_and!; try done.
      exists [], post. split_and!; try done. by left.
    + split_and!; try done.
      exists (pre ++ [c]), post. split_and!; try done.
      * by rewrite <- app_assoc.
      * right. exists pre, c. by rewrite <- is_space_spec.
  - intros (Hne & Hw & pre & post & -> & [->|(pre' & c & -> & Hc)] & Hpost).
    + left. by exists w, post.
    + right. exists pre', c, w, post. rewrite <- app_assoc.
      by rewrite is_space_spec.
Qed.
End SplitFacts.

Section PublicStanza.
Variable macs_to_nic : gmap string string.

(** C3. A public record whose MAC address has a name, with its two lists
    of additional addresses, is translated into a physical stanza: the
    name and the MAC address, [accept-ra] set to 1 unless the record has
    the key, [mtu] copied exactly when present, and the subnets [dhcp]
    (with the primary routes exactly when present), [ipv6_slaac], one
    [static] subnet per [ipv4] additional address and one [static6] subnet
    per [ipv6] additional address, each with its routes when given. *)
Theorem public_interface_stanza d mac name a4 a6 :
  dict_get "mac" d = Some (VStr mac) →
  macs_to_nic !! mac = Some name →
  name ≠ "" →
  additionals "ipv4" (VDict d) = Some a4 →
  additionals "ipv6" (VDict d) = Some a6 →
  forallb wf_additional a4 = true →
  forallb wf_additional a6 = true →
  ∃ cfg,
    generate_public_network_interface macs_to_nic (VDict d)
    = Ok (VDict cfg)
    ∧ dict_get "type" cfg = Some (VStr "physical")
    ∧ dict_get "name" cfg = Some (VStr name)
    ∧ dict_get "mac_address" cfg = Some (VStr mac)
    ∧ dict_get "accept-ra" cfg
      = Some (default (VInt 1) (dict_get "accept-ra" d))
    ∧ dict_get "mtu" cfg = dict_get "mtu" d
    ∧ dict_get "subnets" cfg
      = Some (VList
                (VDict ([("type", VStr "dhcp"); ("control", VStr "auto")]
                        ++ opt_field "routes" (dict_get "routes" d))
                 :: VDict [("type", VStr "ipv6_slaac");
                           ("control", VStr "auto")]
                 :: (static_subnet "static" <$> a4)
                 ++ (static_subnet "static6" <$> a6))).
Proof.
  intros Hmac Hname Hne E4 E6 Hwf4 Hwf6.
  assert (resolved_name macs_to_nic (VDict d) = Some name) as Hres.
  { unfold resolved_name. rewrite Hmac, Hname.
    by destruct (String.eqb_spec name ""). }
  assert (wf_public (VDict d) = true) as Hwf.
  { unfold wf_public. by rewrite E4, E6, Hwf4, Hwf6. }
  rewrite (generate_public_wf _ _ _ Hres Hwf).
  unfold public_stanza. rewrite E4, E6, Hmac. eexists.
  split; [reflexivity|]. cbn.
  split_and!; try done. by destruct (dict_get "mtu" d).
Qed.
End PublicStanza.

Section IdentityFacts.
Variable read_dmi_data : string → option string.
Variable get_cmdline : list N.

(** C8. [is_vultr] answers true exactly when the system manufacturer read
    from the firmware is the string [Vultr] or [vultr] is a
    whitespace-delimited word of the kernel command line. *)
Theorem is_vultr_iff :
  is_vultr read_dmi_data get_cmdline = true
  ↔ read_dmi_data "system-manufacturer" = Some "Vultr"
    ∨ delimited_word (codepoints "vultr") get_cmdline.
Proof.
  unfold is_vultr, get_sysinfo. cbn [manufacturer].
  rewrite <- split_spec. repeat case_bool_decide; intuition congruence.
Qed.
End IdentityFacts.

(** ** The properties on the sample systems *)

Lemma not_skipped_by_tests name :
  String.eqb "lo" name = false →
  str_contains "dummy" name = false →
  ¬ is_skipped name.
Proof.
  intros Hlo Hdummy [->|Hsub]; [done|].
  apply str_contains_spec in Hsub. congruence.
Qed.

(** A no-break space delimits a word as a space does. *)
Lemma vultr_after_nbsp : delimited_word (codepoints "vultr") cmdline_nbsp.
Proof.
  split_and!.
  - done.
  - intros c Hc Hws.
    change (codepoints "vultr") with [118; 117; 108; 116; 114]%N in Hc.
    apply is_space_spec in Hws. revert Hws.
    rewrite !elem_of_cons, elem_of_nil in Hc.
    destruct Hc as [->|[->|[->|[->|[->|[]]]]]]; done.
  - exists (codepoints "quiet" ++ [160%N]), []. split_and!.
    + reflexivity.
    + right. exists (codepoints "quiet"), 160%N.
      split; [done|]. by apply is_space_spec.
    + by left.
Qed.

Lemma is_vultr_iff_sample :
  is_vultr (λ _, Some "QEMU") cmdline_nbsp = true.
Proof.
  apply (is_vultr_iff (λ _, Some "QEMU") cmdline_nbsp).
  right. exact vultr_after_nbsp.
Defined.

(** The translation of the two sample records. *)
Lemma generate_network_config_stanzas_sample :
  generate_network_config sample_macs [sample_public; sample_private]
  = Ok (VDict
          [("version", VInt 1);
           ("config",
            VList
              [VDict [("type", VStr "nameserver");
                      ("address", VList [VStr "108.61.10.10"])];
               VDict [("name", VStr "eth0"); ("type", VStr "physical");
                      ("mac_address", VStr "AA"); ("accept-ra", VInt 1);
                      ("subnets",
                       VList
                         [VDict [("type", VStr "dhcp");
                                 ("control", VStr "auto")];
                          VDict [("type", VStr "ipv6_slaac");
                                 ("control", VStr "auto")];
                          VDict [("type", VStr "static");
                                 ("control", VStr "auto");
                                 ("address", VStr "1.2.3.4");
                                 ("netmask", VStr "255.255.255.0")]])];
               VDict [("name", VStr "eth1"); ("type", VStr "physical");
                      ("mac_address", VStr "BB");
                      ("subnets",
                       VList
                         [VDict [("type", VStr "static");
                                 ("control", VStr "auto");
                                 ("address", VStr "10.1.96.3");
                                 ("netmask", VStr "255.255.240.0")]])]])]).
Proof.
  destruct (generate_network_config_stanzas sample_macs
              [sample_public; sample_private])
    as (stanzas & Hcfg & name0 & privates & Hname0 & -> & Hpriv).
  { vm_compute. reflexivity. }
  vm_compute in Hname0. injection Hname0 as <-.
  apply Forall2_cons_inv_l in Hpriv
    as (p & ? & (d & name & ip & address & netmask & Hd & Hname & H4 & Ha
                 & Hm & ->) & ->%Forall2_nil_inv_l & ->).
  injection Hd as <-.
  vm_compute in Hname. injection Hname as <-.
  vm_compute in H4. injection H4 as <-.
  vm_compute in Ha. injection Ha as <-.
  vm_compute in Hm. injection Hm as <-.
  rewrite Hcfg. vm_compute. reflexivity.
Defined.

Lemma unresolved_interface_aborts_sample :
  generate_network_config sample_macs
    [sample_public; sample_private; sample_unknown]
  = Raise (not_found_error "CC").
Proof.
  refine (proj2 (unresolved_interface_aborts sample_macs
                   [sample_public; sample_private; sample_unknown]
                   2 sample_unknown "CC" _ _) _);
    vm_compute; reflexivity.
Defined.

(** The public interface of the specification: [AA] is [eth0] and the one
    additional IPv4 address becomes the third subnet. *)
Lemma public_interface_stanza_sample :
  ∃ cfg,
    generate_public_network_interface sample_macs sample_public
    = Ok (VDict cfg)
    ∧ dict_get "subnets" cfg
      = Some (VList
                [VDict [("type", VStr "dhcp"); ("control", VStr "auto")];
                 VDict [("type", VStr "ipv6_slaac"); ("control", VStr "auto")];
                 VDict [("type", VStr "static"); ("control", VStr "auto");
                        ("address", VStr "1.2.3.4");
                        ("netmask", VStr "255.255.255.0")]]).
Proof.
  destruct (public_interface_stanza sample_macs
              [("mac", VStr "AA");
               ("ipv4",
                VDict [("additional",
                        VList [VDict [("address", VStr "1.2.3.4");
                                      ("netmask", VStr "255.255.255.0")]])]);
               ("ipv6", VDict [("additional", VList [])])]
              "AA" "eth0"
              [VDict [("address", VStr "1.2.3.4");
                      ("netmask", VStr "255.255.255.0")]]
              [])
    as (cfg & Hcfg & _ & _ & _ & _ & _ & Hsubnets);
    try (vm_compute; reflexivity); [done|].
  exists cfg. split; [exact Hcfg|exact Hsubnets].
Defined.

Lemma read_metadata_not_ok_sample :
  (read_metadata env_http_500 sample_url 10 3 5 sample_agent fresh_world).1
  = Raise (TypeError "not enough arguments for format string").
Proof.
  apply (read_metadata_not_ok_raises_TypeError env_http_500 sample_url
           10 3 5 sample_agent fresh_world response_500);
    reflexivity.
Defined.

(** With the carrier-grade NAT route in the table, no route to the metadata
    address and neither tool installed, no command is run: the condition on
    the table alone does not decide whether the route is added. *)
Lemma set_route_without_tool_adds_nothing :
  ¬ (needs_metadata_route (netinfo_route_info env_no_route_tool None)
     ↔ ∃ cmd, trace (set_route env_no_route_tool "eth0" fresh_world).2
              = [Subp cmd]).
Proof.
  intros [Hadds _].
  assert (needs_metadata_route (netinfo_route_info env_no_route_tool None))
    as Hneeds.
  { exists cgnat_table, [ {[ "destination" := "100.64.0.0/10" ]} ],
      ["100.64.0.0/10"].
    split_and!.
    - reflexivity.
    - vm_compute. reflexivity.
    - repeat constructor.
    - right. apply list_elem_of_singleton. reflexivity.
    - by intros ?%list_elem_of_singleton. }
  destruct (Hadds Hneeds) as [cmd Hcmd]. vm_compute in Hcmd. discriminate.
Qed.

(** The fetch over the first interface raises an error that the loop does
    not catch: the second interface, whose lease, route setup and fetch
    succeed, is never tried and its document is not returned. *)
Lemma get_metadata_stops_at_fetch_error :
  ¬ (∀ doc,
       net_get_interfaces env_fetch_error
       = [iface_named "eth0"; iface_named "eth1"] →
       is_ok (attempt_result env_fetch_error sample_url 10 3 5 sample_agent
                (iface_named "eth0")) = false →
       attempt_result env_fetch_error sample_url 10 3 5 sample_agent
         (iface_named "eth1") = Ok doc →
       (get_metadata env_fetch_error sample_url 10 3 5 sample_agent
          fresh_world).1 = Ok doc).
Proof.
  intros Hclaim.
  specialize (Hclaim (VDict [("interfaces", VList [])])
                eq_refl eq_refl eq_refl).
  vm_compute in Hclaim. discriminate.
Qed.

Lemma get_metadata_first_success_sample :
  ∃ w',
    get_metadata env_second_interface sample_url 10 3 5 sample_agent
      fresh_world
    = (Ok (VDict [("interfaces", VList [])]), w')
    ∧ trace w'
      = [DhcpEnter "eth0" sample_url; LogError NoDHCPLeaseError;
         DhcpEnter "eth1" sample_url; Subp (ip_route_add "eth1");
         ReadUrl (metadata_request sample_url 10 3 5 sample_agent);
         DhcpExit "eth1"].
Proof.
  destruct (get_metadata_first_success env_second_interface sample_url
              10 3 5 sample_agent
              [iface_named "lo"; iface_named "dummy0"; iface_named "eth0"]
              (iface_named "eth1") [iface_named "eth2"]
              [iface_named "eth0"]
              (VDict [("interfaces", VList [])]) fresh_world)
    as (w' & Hcall & Htrace).
  - reflexivity.
  - apply candidates_skip; [by left|].
    apply candidates_skip; [right; by exists "", "0"|].
    apply candidates_keep;
      [by apply not_skipped_by_tests|apply candidates_nil].
  - constructor; [|constructor].
    exists NoDHCPLeaseError. split; vm_compute; reflexivity.
  - by apply not_skipped_by_tests.
  - vm_compute. reflexivity.
  - reflexivity.
  - exists w'. split; [exact Hcall|]. rewrite Htrace. vm_compute.
    reflexivity.
Defined.

Lemma get_metadata_exhausted_sample :
  (get_metadata env_all_fail sample_url 10 3 5 sample_agent fresh_world).1
  = Raise (ProcessExecutionError (ip_route_add "eth1")).
Proof.
  apply (get_metadata_exhausted env_all_fail sample_url 10 3 5 sample_agent
           [iface_named "eth0"; iface_named "eth1"]
           [NoDHCPLeaseError; ProcessExecutionError (ip_route_add "eth1")]
           fresh_world).
  - apply candidates_skip; [by left|].
    apply candidates_keep; [by apply not_skipped_by_tests|].
    apply candidates_keep; [by apply not_skipped_by_tests|].
    apply candidates_nil.
  - repeat constructor; vm_compute; reflexivity.
  - reflexivity.
Defined.

(** A call that raises stores nothing: the second call with the same
    arguments runs the loop again and fetches a second time. *)
Lemma get_metadata_failure_not_memoized :
  let w1 := (get_metadata env_fetch_error sample_url 10 3 5 sample_agent
               fresh_world).2 in
  let w2 := (get_metadata env_fetch_error sample_url 10 3 5 sample_agent
               w1).2 in
  ¬ (fetch_count (trace w2) ≤ 1)%nat.
Proof. vm_compute. lia. Qed.

Lemma get_metadata_memoized_sample :
  let w1 := (get_metadata env_second_interface sample_url 10 3 5
               sample_agent fresh_world).2 in
  ∃ w2,
    get_metadata env_second_interface sample_url 10 3 5 sample_agent w1
    = (Ok (VDict [("interfaces", VList [])]), w2)
    ∧ trace w2 = trace w1 ∧ lease w2 = lease w1.
Proof.
  intros w1.
  apply (get_metadata_memoized env_second_interface sample_url 10 3 5
           sample_agent (VDict [("interfaces", VList [])]) fresh_world w1).
  vm_compute. reflexivity.
Defined.

Lemma public_additional_lists_mandatory_sample :
  generate_public_network_interface sample_macs sample_public_no_ipv4
  = Raise (KeyError "ipv4").
Proof.
  apply (public_additional_lists_mandatory sample_macs
           sample_public_no_ipv4 "eth0" "ipv4").
  - vm_compute. reflexivity.
  - by eapply lacks_ipv4.
Defined.

(** * Further properties *)

Section DictFacts2.
Context {A : Type}.
Implicit Types (d : list (string * A)) (k : string) (v : A).

Lemma dict_get_set_ne k k' v d :
  k ≠ k' → dict_get k (dict_set k' v d) = dict_get k d.
Proof.
  intros Hne. induction d as [|[k0 v0] d IH]; simpl.
  - by destruct (String.eqb_spec k k').
  - destruct (String.eqb_spec k' k0) as [->|Hk0]; simpl.
    + by destruct (String.eqb_spec k k0).
    + by rewrite IH.
Qed.

Lemma dict_get_set k k' v d :
  dict_get k (dict_set k' v d)
  = if String.eqb k k' then Some v else dict_get k d.
Proof.
  destruct (String.eqb_spec k k') as [->|Hne].
  - apply dict_get_set_eq.
  - by apply dict_get_set_ne.
Qed.
End DictFacts2.

Section NetworkConfigMore.
Variable macs_to_nic : gmap string string.
Implicit Types (d netcfg : list (string * value)) (interface : value).

Lemma bind_Ok {A B} (m : result A) (f : A → result B) b :
  m ≫= f = Ok b → ∃ a, m = Ok a ∧ f a = Ok b.
Proof. destruct m as [a|e]; [|done]. intros H. by exists a. Qed.

Lemma py_getitem_Ok v k x :
  py_getitem v k = Ok x → ∃ d, v = VDict d ∧ dict_get k d = Some x.
Proof.
  destruct v as [| | | | |d]; try done. simpl.
  destruct (dict_get k d) as [y|] eqn:E; [|done]. intros [= <-]. eauto.
Qed.

(** The keys that the options and the additional addresses leave alone. *)
Lemma set_primary_routes_keeps routes netcfg netcfg' k :
  k ≠ "subnets" →
  set_primary_routes routes netcfg = Ok netcfg' →
  dict_get k netcfg' = dict_get k netcfg.
Proof.
  intros Hk. unfold set_primary_routes.
  intros (subnets & _ & H)%bind_Ok.
  destruct subnets as [| | | |[|[| | | | |subnet] rest]|]; try done.
  injection H as <-. by apply dict_get_set_ne.
Qed.

Lemma append_subnet_keeps add netcfg netcfg' k :
  k ≠ "subnets" →
  append_subnet add netcfg = Ok netcfg' →
  dict_get k netcfg' = dict_get k netcfg.
Proof.
  intros Hk. unfold append_subnet. intros (subnets & _ & H)%bind_Ok.
  destruct subnets as [| | | |l|]; try done.
  injection H as <-. by apply dict_get_set_ne.
Qed.

Lemma copy_options_keeps interface netcfg netcfg' k :
  k ≠ "subnets" → k ≠ "mtu" → k ≠ "accept-ra" →
  copy_options interface netcfg = Ok netcfg' →
  dict_get k netcfg' = dict_get k netcfg.
Proof.
  intros Hs Hm Ha. unfold copy_options.
  intros (has_mtu & _ & (n1 & H1 & (has_ra & _ & (n2 & H2
            & (has_routes & _ & H3)%bind_Ok)%bind_Ok)%bind_Ok)%bind_Ok)
         %bind_Ok.
  assert (dict_get k n1 = dict_get k netcfg) as E1.
  { destruct has_mtu.
    - apply bind_Ok in H1 as (mtu & _ & [= <-]). by apply dict_get_set_ne.
    - by injection H1 as <-. }
  assert (dict_get k n2 = dict_get k n1) as E2.
  { destruct has_ra.
    - apply bind_Ok in H2 as (ra & _ & [= <-]). by apply dict_get_set_ne.
    - by injection H2 as <-. }
  rewrite <- E1, <- E2. destruct has_routes.
  - apply bind_Ok in H3 as (routes & _ & H3).
    by eapply set_primary_routes_keeps.
  - by injection H3 as <-.
Qed.

Lemma add_additional_keeps ty netcfg additional netcfg' k :
  k ≠ "subnets" →
  add_additional ty netcfg additional = Ok netcfg' →
  dict_get k netcfg' = dict_get k netcfg.
Proof.
  intros Hk. unfold add_additional.
  intros (address & _ & (netmask & _ & (has_routes & _
            & (add & _ & H)%bind_Ok)%bind_Ok)%bind_Ok)%bind_Ok.
  by eapply append_subnet_keeps.
Qed.

Lemma for_each_additional_keeps ty items k :
  k ≠ "subnets" →
  ∀ netcfg netcfg',
    for_each (add_additional ty) items netcfg = Ok netcfg' →
    dict_get k netcfg' = dict_get k netcfg.
Proof.
  intros Hk. induction items as [|x items IH]; intros netcfg netcfg'.
  - by intros [= <-].
  - cbn [for_each]. intros (n1 & H1 & H2)%bind_Ok.
    rewrite (IH _ _ H2). by eapply add_additional_keeps.
Qed.

Lemma add_additionals_keeps family ty interface netcfg netcfg' k :
  k ≠ "subnets" →
  add_additionals family ty interface netcfg = Ok netcfg' →
  dict_get k netcfg' = dict_get k netcfg.
Proof.
  intros Hk. unfold add_additionals.
  intros (ip & _ & (adds & _ & (n & _ & (has & _ & H)%bind_Ok)%bind_Ok)
            %bind_Ok)%bind_Ok.
  destruct (has && bool_decide (0 < n)%nat).
  - apply bind_Ok in H as (ip' & _ & (adds' & _ & (items & _ & H)%bind_Ok)
                             %bind_Ok).
    by eapply for_each_additional_keeps.
  - by injection H as <-.
Qed.

(** A translation that returns has found a name for the MAC address. *)
Lemma translation_prologue interface
    (body : option string → result value) stanza :
  (mac ← py_getitem interface "mac";
   interface_name ← get_interface_name macs_to_nic mac;
   if not_name interface_name
   then mac ← py_getitem interface "mac";
        e ← interface_not_found mac;
        Raise e
   else body interface_name) = Ok stanza →
  ∃ d mac name,
    interface = VDict d ∧ dict_get "mac" d = Some (VStr mac)
    ∧ macs_to_nic !! mac = Some name ∧ String.eqb name "" = false
    ∧ body (Some name) = Ok stanza.
Proof.
  intros (mac & (d & -> & Hmac)%py_getitem_Ok & (iname & Hname & H)%bind_Ok)
         %bind_Ok.
  destruct (not_name iname) eqn:Hnot.
  { apply bind_Ok in H as (? & _ & (? & _ & ?)%bind_Ok). done. }
  unfold get_interface_name in Hname.
  apply bind_Ok in Hname as (k & Hk & Hname).
  unfold not_name, truthy in Hnot.
  destruct iname as [name|]; [|done]. apply negb_false_iff in Hnot.
  apply negb_true_iff in Hnot.
  destruct mac as [| | |m| |]; simpl in Hk; try done;
    injection Hk as <-; try done.
  injection Hname as Hname. by exists d, m, name.
Qed.

(** X1. A private record whose MAC address has a name and that carries
    its primary IPv4 address is translated into a physical stanza with one
    [static] subnet built from [ipv4.address] and [ipv4.netmask], with the
    routes of the record on that subnet exactly when it has some, and with
    [mtu] and [accept-ra] copied exactly when present: unlike the public
    stanza, it has no [accept-ra] of its own. *)
Theorem private_interface_stanza d mac name ip address netmask :
  dict_get "mac" d = Some (VStr mac) →
  macs_to_nic !! mac = Some name →
  name ≠ "" →
  dict_get "ipv4" d = Some (VDict ip) →
  dict_get "address" ip = Some address →
  dict_get "netmask" ip = Some netmask →
  generate_private_network_interface macs_to_nic (VDict d)
  = Ok (private_stanza name address netmask d).
Proof.
  intros Hmac Hname Hne%String.eqb_neq H4 Ha Hm.
  unfold generate_private_network_interface.
  cbn -[copy_options not_name]. rewrite Hmac.
  cbn -[copy_options not_name]. rewrite Hname.
  cbn -[copy_options not_name]. unfold not_name, truthy; rewrite Hne, H4.
  cbn -[copy_options]. rewrite Ha, Hm.
  unfold copy_options, private_stanza. cbn. unfold dict_has. rewrite Hmac.
  by destruct (dict_get "mtu" d), (dict_get "accept-ra" d),
    (dict_get "routes" d).
Qed.

Lemma private_loop_inv interfaces :
  ∀ config config',
    for_each (append_private macs_to_nic) interfaces config = Ok config' →
    ∃ privates,
      config' = config ++ privates
      ∧ Forall2 (λ i p, generate_private_network_interface macs_to_nic i
                        = Ok p) interfaces privates.
Proof.
  induction interfaces as [|i interfaces IH]; intros config config'.
  - intros [= <-]. exists []. by rewrite app_nil_r.
  - cbn [for_each]. intros (c1 & H1 & H2)%bind_Ok.
    unfold append_private in H1. apply bind_Ok in H1 as (p & Hp & [= <-]).
    apply IH in H2 as (ps & -> & Hall). exists (p :: ps).
    split; [by rewrite <- app_assoc|by constructor].
Qed.

Lemma translate_Ok_named k interface stanza :
  translate macs_to_nic k interface = Ok stanza →
  ∃ d mac name cfg,
    interface = VDict d ∧ stanza = VDict cfg
    ∧ dict_get "mac" d = Some (VStr mac)
    ∧ macs_to_nic !! mac = Some name ∧ name ≠ ""
    ∧ dict_get "name" cfg = Some (VStr name)
    ∧ dict_get "type" cfg = Some (VStr "physical")
    ∧ dict_get "mac_address" cfg = Some (VStr mac).
Proof.
  destruct k as [|k]; cbn [translate].
  - unfold generate_public_network_interface.
    intros (d & mac & name & -> & Hmac & Hname & Hne & H)
           %(translation_prologue _ (λ interface_name, _)).
    cbn beta in H. cbn -[copy_options add_additionals] in H.
    rewrite Hmac in H. cbn -[copy_options add_additionals] in H.
    apply bind_Ok in H as (n1 & H1 & (n2 & H2 & (n3 & H3 & [= <-])%bind_Ok)
                             %bind_Ok).
    exists d, mac, name, n3. apply String.eqb_neq in Hne.
    split_and!; try done.
    all: erewrite add_additionals_keeps by done;
      erewrite add_additionals_keeps by done;
      by erewrite copy_options_keeps by done.
  - unfold generate_private_network_interface.
    intros (d & mac & name & -> & Hmac & Hname & Hne & H)
           %(translation_prologue _ (λ interface_name, _)).
    cbn beta in H. cbn -[copy_options] in H.
    rewrite Hmac in H. cbn -[copy_options] in H.
    apply bind_Ok in H as (ipv4 & _ & (address & _ & (ipv4' & _
                             & (netmask & _ & (n1 & H1 & [= <-])%bind_Ok)
                             %bind_Ok)%bind_Ok)%bind_Ok).
    exists d, mac, name, n1. apply String.eqb_neq in Hne.
    split_and!; try done.
    all: by erewrite copy_options_keeps by done.
Qed.

(** X2. Whenever [generate_network_config] returns, the document has
    version 1 and its configuration is the nameserver stanza, of type
    [nameserver] with the address [108.61.10.10], followed by exactly one
    stanza per record: the stanza at index [k] is the translation of the
    record at index [k] and carries the name and the MAC address of that
    record. *)
Theorem generate_network_config_returns interfaces doc :
  generate_network_config macs_to_nic interfaces = Ok doc →
  ∃ stanzas,
    doc = VDict [("version", VInt 1);
                 ("config",
                  VList (VDict [("type", VStr "nameserver");
                                ("address", VList [VStr "108.61.10.10"])]
                         :: stanzas))]
    ∧ length stanzas = length interfaces
    ∧ ∀ k interface,
        interfaces !! k = Some interface →
        ∃ d mac name cfg,
          interface = VDict d
          ∧ dict_get "mac" d = Some (VStr mac)
          ∧ macs_to_nic !! mac = Some name ∧ name ≠ ""
          ∧ stanzas !! k = Some (VDict cfg)
          ∧ translate macs_to_nic k interface = Ok (VDict cfg)
          ∧ dict_get "name" cfg = Some (VStr name)
          ∧ dict_get "type" cfg = Some (VStr "physical")
          ∧ dict_get "mac_address" cfg = Some (VStr mac).
Proof.
  unfold generate_network_config.
  intros (c1 & H1 & (c2 & H2 & [= <-])%bind_Ok)%bind_Ok.
  assert (∀ k interface stanza,
            translate macs_to_nic k interface = Ok stanza →
            ∃ d mac name cfg,
              interface = VDict d
              ∧ dict_get "mac" d = Some (VStr mac)
              ∧ macs_to_nic !! mac = Some name ∧ name ≠ ""
              ∧ stanza = VDict cfg
              ∧ translate macs_to_nic k interface = Ok (VDict cfg)
              ∧ dict_get "name" cfg = Some (VStr name)
              ∧ dict_get "type" cfg = Some (VStr "physical")
              ∧ dict_get "mac_address" cfg = Some (VStr mac)) as Hnamed.
  { intros k interface stanza Hs.
    destruct (translate_Ok_named k interface stanza Hs)
      as (d & mac & name & cfg & -> & -> & ? & ? & ? & ? & ? & ?).
    by exists d, mac, name, cfg. }
  destruct interfaces as [|i0 others].
  - injection H1 as <-. injection H2 as <-. exists []. by split_and!.
  - apply bind_Ok in H1 as (public & Hpub & [= <-]).
    change (drop 1 (i0 :: others)) with others in H2.
    apply private_loop_inv in H2 as (privates & -> & Hall).
    exists (public :: privates). split_and!; [done|..].
    + simpl. f_equal. symmetry. by eapply Forall2_length.
    + intros [|k] interface Hk; simpl in Hk.
      * injection Hk as <-.
        destruct (Hnamed 0%nat i0 public Hpub)
          as (d & mac & name & cfg & ? & ? & ? & ? & -> & ? & ? & ? & ?).
        by exists d, mac, name, cfg.
      * destruct (Forall2_lookup_l _ _ _ _ _ Hall Hk) as (p & Hp & Hgen).
        destruct (Hnamed (S k) interface p Hgen)
          as (d & mac & name & cfg & ? & ? & ? & ? & -> & ? & ? & ? & ?).
        by exists d, mac, name, cfg.
Qed.

(** X3. A stanza is only ever returned for a record whose MAC address is a
    string that the interface map sends to a non-empty name: the stanza
    then carries that name, the type [physical] and the MAC address. *)
Theorem translated_stanza_is_named k interface stanza :
  translate macs_to_nic k interface = Ok stanza →
  ∃ d mac name cfg,
    interface = VDict d ∧ stanza = VDict cfg
    ∧ dict_get "mac" d = Some (VStr mac)
    ∧ macs_to_nic !! mac = Some name ∧ name ≠ ""
    ∧ dict_get "name" cfg = Some (VStr name)
    ∧ dict_get "type" cfg = Some (VStr "physical")
    ∧ dict_get "mac_address" cfg = Some (VStr mac).
Proof. apply translate_Ok_named. Qed.

(** X4. The records are translated in order and the first translation that
    raises decides the outcome: its exception is the one
    [generate_network_config] raises. *)
Theorem generate_network_config_first_failure interfaces k interface e :
  interfaces !! k = Some interface →
  translate macs_to_nic k interface = Raise e →
  (∀ j ij, (j < k)%nat → interfaces !! j = Some ij →
     is_ok (translate macs_to_nic j ij) = true) →
  generate_network_config macs_to_nic interfaces = Raise e.
Proof.
  intros Hk He Hbefore. unfold generate_network_config.
  destruct interfaces as [|i0 others]; [done|].
  destruct k as [|k]; simpl in Hk, He.
  - injection Hk as ->. by rewrite He.
  - pose proof (Hbefore 0%nat i0 ltac:(lia) eq_refl) as H0. simpl in H0.
    destruct (generate_public_network_interface macs_to_nic i0); [|done].
    cbn -[nameserver for_each]. rewrite drop_0.
    erewrite private_loop_raise; [done..|].
    intros j ij Hj Hij. apply (Hbefore (S j)); [lia|done].
Qed.
End NetworkConfigMore.

Section InterfaceNamesFacts.
Variable macs_to_nic : gmap string string.
Implicit Types (d : list (string * value)) (interface : value).

Lemma named_record_set name d :
  named_record name d (dict_set "name" (VStr name) d).
Proof. intros k. apply dict_get_set. Qed.

Lemma add_interface_name_resolved interface name :
  resolved_name macs_to_nic interface = Some name →
  ∃ d, interface = VDict d
       ∧ add_interface_name macs_to_nic interface
         = Ok (VDict (dict_set "name" (VStr name) d)).
Proof.
  intros (d & mac & -> & Hmac & Hname & Hne)%resolved_name_Some.
  exists d. split; [done|]. unfold add_interface_name.
  cbn -[not_name]. rewrite Hmac. cbn -[not_name]. rewrite Hname.
  unfold not_name, truthy. by rewrite Hne.
Qed.

Lemma add_interface_name_unresolved interface mac :
  unresolved_mac macs_to_nic interface = Some mac →
  add_interface_name macs_to_nic interface = Raise (not_found_error mac).
Proof.
  intros (d & -> & Hmac & Hno)%unresolved_mac_Some.
  unfold add_interface_name.
  cbn -[percent not_name]. rewrite Hmac.
  cbn -[percent not_name]. rewrite Hno.
  cbn -[percent not_name]. by rewrite percent_not_found.
Qed.

Lemma add_interface_name_Ok interface named :
  add_interface_name macs_to_nic interface = Ok named →
  ∃ d name,
    interface = VDict d
    ∧ resolved_name macs_to_nic interface = Some name
    ∧ named = VDict (dict_set "name" (VStr name) d).
Proof.
  unfold add_interface_name.
  intros (d & mac & name & -> & Hmac & Hname & Hne & [= <-])
         %(translation_prologue _ _ (λ interface_name, _)).
  exists d, name. unfold resolved_name. by rewrite Hmac, Hname, Hne.
Qed.

(** The records of [interfaces] with their names written in. *)
Lemma add_interface_names_resolved interfaces :
  Forall (λ i, resolves macs_to_nic i = true) interfaces →
  ∃ named,
    add_interface_names macs_to_nic interfaces = (Ok named, named)
    ∧ Forall2
        (λ i i', ∃ d d' name,
           i = VDict d ∧ i' = VDict d'
           ∧ resolved_name macs_to_nic i = Some name
           ∧ named_record name d d')
        interfaces named.
Proof.
  induction 1 as [|i interfaces [name Hname]%resolves_true _
                   (named & Hcall & Hall)].
  - by exists [].
  - destruct (add_interface_name_resolved i name Hname) as (d & -> & Hi).
    exists (VDict (dict_set "name" (VStr name) d) :: named). split.
    + cbn [add_interface_names]. by rewrite Hi, Hcall.
    + constructor; [|done]. exists d, (dict_set "name" (VStr name) d), name.
      split_and!; try done. apply named_record_set.
Qed.

(** X5. When every record has a MAC address with a name,
    [add_interface_names] returns the list itself, of the same length, and
    each record has gained the key [name] with the name of its MAC address
    and kept every other key. *)
Theorem add_interface_names_names interfaces :
  Forall (λ i, resolves macs_to_nic i = true) interfaces →
  ∃ named,
    add_interface_names macs_to_nic interfaces = (Ok named, named)
    ∧ length named = length interfaces
    ∧ ∀ k d,
        interfaces !! k = Some (VDict d) →
        ∃ d' name,
          named !! k = Some (VDict d')
          ∧ resolved_name macs_to_nic (VDict d) = Some name
          ∧ dict_get "name" d' = Some (VStr name)
          ∧ ∀ key, key ≠ "name" → dict_get key d' = dict_get key d.
Proof.
  intros (named & Hcall & Hall)%add_interface_names_resolved.
  exists named. split_and!; [done|symmetry; by eapply Forall2_length|].
  intros k d Hk.
  destruct (Forall2_lookup_l _ _ _ _ _ Hall Hk)
    as (i' & Hi' & d0 & d' & name & [= <-] & -> & Hname & Hrec).
  exists d', name. split_and!; [done..| |].
  - by rewrite (Hrec "name").
  - intros key Hkey. rewrite (Hrec key).
    by destruct (String.eqb_spec key "name").
Qed.

(** X6. At the first record whose MAC address has no name,
    [add_interface_names] raises the [RuntimeError] that names this MAC
    address; the change is not undone: the records before it keep the names
    written into them, the others are untouched. *)
Theorem add_interface_names_unresolved interfaces k interface mac :
  interfaces !! k = Some interface →
  unresolved_mac macs_to_nic interface = Some mac →
  Forall (λ i, resolves macs_to_nic i = true) (take k interfaces) →
  ∃ named,
    add_interface_names macs_to_nic interfaces
    = (Raise (not_found_error mac), named ++ drop k interfaces)
    ∧ add_interface_names macs_to_nic (take k interfaces)
      = (Ok named, named).
Proof.
  revert k. induction interfaces as [|i interfaces IH];
    intros k Hk Hmac Hbefore; [done|].
  destruct k as [|k]; simpl in Hk.
  - injection Hk as ->. exists []. split; [|done].
    cbn [add_interface_names].
    by rewrite (add_interface_name_unresolved _ _ Hmac).
  - cbn [take] in Hbefore.
    apply Forall_cons in Hbefore as [[name Hname]%resolves_true Hbefore].
    destruct (add_interface_name_resolved i name Hname) as (d & -> & Hi).
    destruct (IH k Hk Hmac Hbefore) as (named & Hcall & Hprefix).
    exists (VDict (dict_set "name" (VStr name) d) :: named).
    cbn [add_interface_names take]. by rewrite Hi, Hcall, Hprefix.
Qed.

Lemma add_interface_names_Ok interfaces :
  ∀ named after,
    add_interface_names macs_to_nic interfaces = (Ok named, after) →
    after = named
    ∧ Forall2 (λ i i', add_interface_name macs_to_nic i = Ok i')
        interfaces named.
Proof.
  induction interfaces as [|i interfaces IH]; intros named after.
  - by intros [= <- <-].
  - cbn [add_interface_names].
    destruct (add_interface_name macs_to_nic i) as [i'|] eqn:Hi; [|done].
    destruct (add_interface_names macs_to_nic interfaces) as [[l|] after']
      eqn:Hrest; [|done].
    intros [= <- <-]. destruct (IH l after' eq_refl) as [-> Hall].
    split; [done|by constructor].
Qed.

(** X7. [add_interface_names] is idempotent: on a list it has returned, it
    returns the same list again and changes nothing. *)
Theorem add_interface_names_idempotent interfaces named after :
  add_interface_names macs_to_nic interfaces = (Ok named, after) →
  add_interface_names macs_to_nic named = (Ok named, named).
Proof.
  intros [_ Hall]%add_interface_names_Ok. clear after.
  induction Hall as [|i i' interfaces named Hi _ IH]; [done|].
  cbn [add_interface_names].
  apply add_interface_name_Ok in Hi as (d & name & -> & Hname & ->).
  apply resolved_name_Some in Hname
    as (d0 & mac & [= <-] & Hmac & Hname & Hne).
  assert (resolved_name macs_to_nic
            (VDict (dict_set "name" (VStr name) d)) = Some name) as Hres.
  { unfold resolved_name. rewrite dict_get_set_ne by done.
    by rewrite Hmac, Hname, Hne. }
  destruct (add_interface_name_resolved _ _ Hres) as (d1 & [= <-] & ->).
  by rewrite dict_set_set_eq, IH.
Qed.
End InterfaceNamesFacts.

Section Effects.
Variable env : Env.

Lemma emits_ret {A} P (a : A) : emits P (mret a).
Proof. intros w. exists []. by rewrite app_nil_r. Qed.

Lemma emits_lift {A} P (r : result A) : emits P (lift r).
Proof. intros w. exists []. by rewrite app_nil_r. Qed.

Lemma emits_raise {A} P (e : exn) : emits P (raise (A := A) e).
Proof. intros w. exists []. by rewrite app_nil_r. Qed.

Lemma emits_ask {A} P (f : option string → result A) : emits P (ask f).
Proof. intros w. exists []. by rewrite app_nil_r. Qed.

Lemma emits_emit (P : event → Prop) e : P e → emits P (emit e).
Proof. intros He w. exists [e]. split; [done|by constructor]. Qed.

Lemma emits_bind {A B} P (m : M A) (f : A → M B) :
  emits P m → (∀ a, emits P (f a)) → emits P (m ≫= f).
Proof.
  intros Hm Hf w. destruct (Hm w) as (evs & Ht & HP).
  unfold mbind, M_bind. destruct (m w) as [[a|e] w1]; simpl in Ht.
  - destruct (Hf a w1) as (evs' & Ht' & HP'). exists (evs ++ evs').
    split; [by rewrite Ht', Ht, app_assoc|by apply Forall_app].
  - by exists evs.
Qed.

Lemma emits_subp (P : event → Prop) cmd :
  P (Subp cmd) → emits P (subp env cmd).
Proof.
  intros HP. unfold subp. apply emits_bind; [by apply emits_emit|].
  intros _. destruct (subp_subp env cmd);
    [apply emits_raise|apply emits_ret].
Qed.

Lemma emits_set_route (P : event → Prop) iface :
  (∀ cmd, P (Subp cmd)) → emits P (set_route env iface).
Proof.
  intros HP. unfold set_route, route_info.
  apply emits_bind; [apply emits_ask|]. intros routes.
  destruct (routes !! "ipv4"); [|apply emits_ret].
  apply emits_bind; [apply emits_lift|]. intros dests. cbv zeta.
  repeat case_match; auto using emits_ret, emits_subp.
Qed.

Lemma emits_read_metadata (P : event → Prop) url timeout retries
    sec_between agent :
  (∀ req, P (ReadUrl req)) →
  emits P (read_metadata env url timeout retries sec_between agent).
Proof.
  intros HP. unfold read_metadata, readurl.
  apply emits_bind; [apply emits_lift|]. intros url'.
  apply emits_bind.
  { apply emits_bind; [by apply emits_emit|]. intros _. apply emits_ask. }
  intros resp. destruct (negb (ok resp)); [|apply emits_lift].
  apply emits_bind; [apply emits_lift|]. intros msg. apply emits_raise.
Qed.

Lemma read_metadata_unfold url timeout retries sec_between agent w :
  read_metadata env url timeout retries sec_between agent w
  = (fetch_outcome env (lease w) url timeout retries sec_between agent,
     add_event
       (ReadUrl (metadata_request url timeout retries sec_between agent)) w).
Proof.
  unfold read_metadata, fetch_outcome. rewrite percent_v1.
  unfold readurl, ask, emit, lift, mbind, M_bind. cbn [lease add_event].
  fold (metadata_request url timeout retries sec_between agent).
  destruct (url_helper_readurl env (lease w) _) as [resp|e]; [|done].
  destruct (ok resp); [done|]. cbn [negb].
  by rewrite percent_failed_to_connect.
Qed.

(** X8. On every path [read_metadata] sends exactly one request, for
    [url] followed by [/v1.json] with the headers [Metadata-Token] and
    [User-Agent], and changes nothing else; an exception of [readurl] goes
    through unchanged and a successful response gives its decoded
    contents. *)
Theorem read_metadata_one_request url timeout retries sec_between agent w :
  let call := read_metadata env url timeout retries sec_between agent w in
  trace call.2
  = trace w
    ++ [ReadUrl {| req_url := url +:+ "/v1.json";
                   req_timeout := timeout;
                   req_retries := retries;
                   req_headers := [("Metadata-Token", "cloudinit");
                                   ("User-Agent", agent)];
                   req_sec_between := sec_between |}]
  ∧ lease call.2 = lease w ∧ cache call.2 = cache w
  ∧ match url_helper_readurl env (lease w)
            (metadata_request url timeout retries sec_between agent) with
    | Raise e => call.1 = Raise e
    | Ok resp => ok resp = true → call.1 = contents_decode resp
    end.
Proof.
  cbv zeta. rewrite read_metadata_unfold. unfold fetch_outcome.
  split_and!; [done..|].
  destruct (url_helper_readurl env (lease w) _) as [resp|e]; [|done].
  by intros ->.
Qed.




End Effects.

Section OrchestratorMore.
Variable env : Env.
Variables (url : string) (timeout retries sec_between : Z) (agent : string).

Local Abbreviation loop' ifaces exception :=
  (get_metadata_loop env ifaces exception
     url timeout retries sec_between agent).
Local Abbreviation try_iface name :=
  (attempt env name url timeout retries sec_between agent).

Lemma emits_attempt_body (P : event → Prop) iface :
  (∀ e, is_call e = true → P e) →
  emits P
    (set_route env iface;;
     v1 ← read_metadata env url timeout retries sec_between agent;
     lift (json_loads env v1)).
Proof.
  intros HP. apply emits_bind.
  { apply emits_set_route. intros cmd. by apply HP. }
  intros _. apply emits_bind.
  { apply emits_read_metadata. intros req. by apply HP. }
  intros v1. apply emits_lift.
Qed.

Lemma with_EphemeralDHCPv4_unfold {A} iface (body : M A) w :
  with_EphemeralDHCPv4 env iface url body w
  = match dhcp_obtain_lease env iface with
    | Some e => (Raise e, add_event (DhcpEnter iface url) w)
    | None =>
        let (r, w') :=
          body (set_lease (Some iface) (add_event (DhcpEnter iface url) w)) in
        (r, add_event (DhcpExit iface) (set_lease None w'))
    end.
Proof.
  unfold with_EphemeralDHCPv4, mbind, M_bind, emit, raise.
  by destruct (dhcp_obtain_lease env iface).
Qed.

(** X10. An attempt first asks for the lease.  Without a lease it raises
    the exception of the DHCP client and neither sets a route nor fetches;
    with a lease, whatever happens inside, the last event is the release of
    the lease and in between there are only commands and requests. *)
Theorem attempt_is_scoped iface w :
  match dhcp_obtain_lease env iface with
  | Some e => try_iface iface w = (Raise e, add_event (DhcpEnter iface url) w)
  | None =>
      ∃ calls,
        trace (try_iface iface w).2
        = trace w ++ DhcpEnter iface url :: calls ++ [DhcpExit iface]
        ∧ Forall (λ e, is_call e = true) calls
        ∧ lease (try_iface iface w).2 = None
  end.
Proof.
  unfold attempt. rewrite with_EphemeralDHCPv4_unfold.
  destruct (dhcp_obtain_lease env iface) as [e|]; [done|].
  destruct (emits_attempt_body (λ e, is_call e = true) iface ltac:(done)
              (set_lease (Some iface) (add_event (DhcpEnter iface url) w)))
    as (calls & Ht & Hcalls).
  exists calls.
  match goal with
  | |- context [let (_, _) := ?m ?w0 in _] => destruct (m w0) as [r w1]
  end.
  cbn [snd] in Ht. cbn [snd trace lease add_event set_lease].
  rewrite Ht. cbn [trace add_event set_lease].
  split_and!; [|done..]. by rewrite <- !app_assoc.
Qed.

Lemma attempt_leases iface :
  ¬ is_skipped (if_name iface) →
  iface ∈ net_get_interfaces env →
  Forall (leases_candidates env url)
    (trace (try_iface (if_name iface) fresh_world).2).
Proof.
  intros Hkeep Hin.
  assert (leases_candidates env url (DhcpEnter (if_name iface) url)) as HP.
  { split_and!; [done..|]. by exists iface. }
  unfold attempt. rewrite with_EphemeralDHCPv4_unfold.
  destruct (dhcp_obtain_lease env (if_name iface)) as [e|].
  { cbn. constructor; [done|constructor]. }
  destruct (emits_attempt_body (leases_candidates env url) (if_name iface)
              ltac:(by intros [])
              (set_lease (Some (if_name iface))
                 (add_event (DhcpEnter (if_name iface) url) fresh_world)))
    as (calls & Ht & Hcalls).
  match goal with
  | |- context [let (_, _) := ?m ?w0 in _] => destruct (m w0) as [r w1]
  end.
  cbn [snd] in Ht. cbn [snd trace add_event set_lease]. rewrite Ht.
  cbn [trace add_event set_lease fresh_world app].
  constructor; [done|]. apply Forall_app. split; [done|by constructor].
Qed.

(** What the loop does to the world, whatever the attempts give. *)
Lemma loop_effects ifaces :
  (∀ iface, iface ∈ ifaces → iface ∈ net_get_interfaces env) →
  ∀ exception w,
    cache (loop' ifaces exception w).2 = cache w
    ∧ (lease w = None → lease (loop' ifaces exception w).2 = None)
    ∧ ∃ evs,
        trace (loop' ifaces exception w).2 = trace w ++ evs
        ∧ Forall (leases_candidates env url) evs.
Proof.
  induction ifaces as [|iface ifaces IH]; intros Hin exception w.
  { split_and!; [done..|]. exists []. by rewrite app_nil_r. }
  assert (∀ i, i ∈ ifaces → i ∈ net_get_interfaces env) as Hin'.
  { intros i Hi. apply Hin. by right. }
  cbn [get_metadata_loop].
  destruct (str_contains "dummy" (if_name iface)) eqn:Hdummy; [by apply IH|].
  destruct (String.eqb "lo" (if_name iface)) eqn:Hlo; [by apply IH|].
  assert (¬ is_skipped (if_name iface)) as Hkeep
    by by apply not_skipped_by_tests.
  destruct (attempt_frame env iface url timeout retries sec_between agent w)
    as (w1 & Hw1 & Ht1 & Hc1 & Hl1).
  pose proof (attempt_leases iface Hkeep (Hin iface ltac:(by left))) as HP1.
  unfold try_except. rewrite Hw1.
  destruct (attempt_result env url timeout retries sec_between agent iface)
    as [doc|exc].
  { cbn [snd]. split_and!; [done..|]. by eexists. }
  destruct (is_caught exc); cycle 1.
  { cbn [snd]. split_and!; [done..|]. by eexists. }
  unfold mbind, M_bind, emit.
  destruct (IH Hin' exc (add_event (LogError exc) w1))
    as (Hc & Hl & evs & Ht & HP).
  split_and!.
  - by rewrite Hc.
  - intros Hw. apply Hl. cbn. auto.
  - eexists. split.
    + rewrite Ht. cbn [trace add_event]. rewrite Ht1.
      rewrite <- !app_assoc. reflexivity.
    + apply Forall_app. split; [done|]. by constructor.
Qed.

Lemma get_metadata_uncached_effects w :
  cache (get_metadata_uncached env url timeout retries sec_between agent w).2
  = cache w
  ∧ (lease w = None →
     lease (get_metadata_uncached env url timeout retries sec_between
              agent w).2 = None)
  ∧ ∃ evs,
      trace (get_metadata_uncached env url timeout retries sec_between
               agent w).2 = trace w ++ evs
      ∧ Forall (leases_candidates env url) evs.
Proof. unfold get_metadata_uncached. by apply loop_effects. Qed.

(** The world after [lru_cache key body] is the world after [body], or
    the world before on a hit, up to the cache. *)
Lemma lru_cache_world key body w :
  let w' := (lru_cache key body w).2 in
  (lease w' = lease w ∧ trace w' = trace w)
  ∨ (lease w' = lease (body w).2 ∧ trace w' = trace (body w).2).
Proof.
  unfold lru_cache.
  destruct (list_find _ (cache w)) as [[? [? v]]|]; [by left|].
  right. by destruct (body w) as [[v|e] w1].
Qed.

(** X11. No lease is left behind: from a world in which no interface holds
    an ephemeral lease, [get_metadata] ends in such a world, whether it
    returns or raises. *)
Theorem get_metadata_releases_lease w :
  lease w = None →
  lease (get_metadata env url timeout retries sec_between agent w).2 = None.
Proof.
  intros Hw. unfold get_metadata.
  destruct (lru_cache_world (url, timeout, retries, sec_between, agent)
              (get_metadata_uncached env url timeout retries sec_between
                 agent) w) as [[-> _]|[-> _]]; [done|].
  by apply get_metadata_uncached_effects.
Qed.

(** X12. [get_metadata] asks for a lease only on enumerated interfaces that
    are neither named [lo] nor have [dummy] in their name, and always with
    the metadata URL as connectivity hint. *)
Theorem get_metadata_leases_only_candidates w :
  ∃ evs,
    trace (get_metadata env url timeout retries sec_between agent w).2
    = trace w ++ evs
    ∧ ∀ name u,
        DhcpEnter name u ∈ evs →
        ¬ is_skipped name ∧ u = url
        ∧ ∃ iface, iface ∈ net_get_interfaces env ∧ if_name iface = name.
Proof.
  assert (∀ evs, Forall (leases_candidates env url) evs →
            ∀ name u, DhcpEnter name u ∈ evs →
              ¬ is_skipped name ∧ u = url
              ∧ ∃ iface, iface ∈ net_get_interfaces env
                         ∧ if_name iface = name) as Hall.
  { intros evs HP name u Hin. rewrite Forall_forall in HP.
    apply (HP _ Hin). }
  unfold get_metadata.
  destruct (lru_cache_world (url, timeout, retries, sec_between, agent)
              (get_metadata_uncached env url timeout retries sec_between
                 agent) w) as [[_ ->]|[_ ->]].
  - exists []. rewrite app_nil_r. split; [done|].
    intros name u Hin. by apply elem_of_nil in Hin.
  - destruct (get_metadata_uncached_effects w) as (_ & _ & evs & Ht & HP).
    exists evs. split; [done|]. by apply Hall.
Qed.
End OrchestratorMore.

Section CacheAndOutcome.
Variable env : Env.
Variables (url : string) (timeout retries sec_between : Z) (agent : string).

Local Abbreviation key' := (url, timeout, retries, sec_between, agent).
Local Abbreviation tried_events tried :=
  (concat (attempt_events env url timeout retries sec_between agent
           <$> tried)).

Lemma attempt_events_uncaught iface exc :
  attempt_result env url timeout retries sec_between agent iface
  = Raise exc →
  is_caught exc = false →
  attempt_events env url timeout retries sec_between agent iface
  = trace (attempt env (if_name iface) url timeout retries sec_between
             agent fresh_world).2.
Proof. unfold attempt_events. intros -> ->. by rewrite app_nil_r. Qed.

(** X13. An exception of an attempt other than [NoDHCPLeaseError] and
    [ProcessExecutionError] ends the loop at once: after interfaces whose
    attempts failed with caught exceptions, [get_metadata] raises it, makes
    no call beyond that attempt and stores nothing in its cache. *)
Theorem get_metadata_uncaught_propagates pre iface post tried exc w :
  net_get_interfaces env = pre ++ iface :: post →
  candidates_of pre tried →
  Forall (λ j, ∃ e,
            fails_with env url timeout retries sec_between agent j e)
    tried →
  ¬ is_skipped (if_name iface) →
  attempt_result env url timeout retries sec_between agent iface
  = Raise exc →
  is_caught exc = false →
  cached key' w = None →
  ∃ w',
    get_metadata env url timeout retries sec_between agent w
    = (Raise exc, w')
    ∧ trace w' = trace w ++ tried_events (tried ++ [iface])
    ∧ cache w' = cache w.
Proof.
  intros Hifaces Hcand Hfail Hkeep Hexc Huncaught Hmiss.
  assert (∃ errs,
    Forall2 (fails_with env url timeout retries sec_between agent)
      tried errs) as [errs Herrs].
  { clear -Hfail. induction Hfail as [|j tried [e He] _ [errs IH]].
    - by exists [].
    - exists (e :: errs). by constructor. }
  destruct (loop_over_failures env url timeout retries sec_between agent
              pre tried Hcand errs (iface :: post)
              (RuntimeError [AStr "Failed to DHCP"]) w Herrs)
    as (w1 & Hw1 & Ht1 & Hc1 & _).
  destruct (attempt_frame env iface url timeout retries sec_between
              agent w1) as (w2 & Hw2 & Ht2 & Hc2 & _).
  unfold get_metadata. rewrite lru_cache_miss by done.
  unfold get_metadata_uncached. rewrite Hifaces, Hw1.
  rewrite loop_keep by done. unfold try_except.
  rewrite Hw2, Hexc, Huncaught.
  exists w2. split_and!; [done| |congruence].
  rewrite Ht2, Ht1, fmap_app, concat_app. cbn [fmap list_fmap concat].
  rewrite (attempt_events_uncaught iface exc) by done.
  by rewrite !app_nil_r, <- !app_assoc.
Qed.

Lemma cached_Some key w doc :
  cached key w = Some doc →
  ∃ i, list_find (λ kv, kv.1 = key) (cache w) = Some (i, (key, doc)).
Proof.
  unfold cached. intros ([i [k v]] & Hfind & [= <-])%fmap_Some.
  exists i. pose proof Hfind as (_ & Hk & _)%list_find_Some.
  simpl in Hk. by subst k.
Qed.

(** X14. A call whose arguments are in the cache returns the stored
    document without a lease, a command or a request, whatever the state
    of the network, and the document stays in the cache. *)
Theorem get_metadata_cache_hit doc w :
  cached key' w = Some doc →
  ∃ w',
    get_metadata env url timeout retries sec_between agent w = (Ok doc, w')
    ∧ trace w' = trace w ∧ lease w' = lease w
    ∧ cached key' w' = Some doc.
Proof.
  intros [i Hfind]%cached_Some. unfold get_metadata, lru_cache.
  rewrite Hfind. eexists. split_and!; [done..|].
  unfold cached. cbn [cache set_cache list_find].
  by rewrite decide_True.
Qed.

Lemma cache_remove_keys key (c : list (cache_key * value)) :
  (cache_remove key c).*1 = filter (λ k, k ≠ key) c.*1.
Proof.
  unfold cache_remove. induction c as [|[k v] c IH]; [done|].
  rewrite filter_cons. cbn [fmap list_fmap fst]. rewrite filter_cons.
  cbn [fst]. case_decide; cbn [fmap list_fmap fst]; by rewrite IH.
Qed.

Lemma cache_remove_found key (c : list (cache_key * value)) i kv :
  list_find (λ kv, kv.1 = key) c = Some (i, kv) →
  (length (cache_remove key c) < length c)%nat.
Proof.
  intros (Hi & Hkey & _)%list_find_Some. unfold cache_remove.
  apply list_elem_of_lookup_2 in Hi.
  induction c as [|x c IH]; [by apply elem_of_nil in Hi|].
  rewrite filter_cons. apply elem_of_cons in Hi as [<-|Hi].
  - rewrite decide_False by (by intros ?). simpl.
    pose proof (length_filter (λ kv : cache_key * value, kv.1 ≠ key) c).
    lia.
  - specialize (IH Hi). case_decide; simpl; lia.
Qed.

(** X15. The cache keeps its shape: if it holds at most one entry per
    argument tuple and at most 128 entries before a call of [get_metadata],
    it does so after the call. *)
Theorem get_metadata_keeps_cache_ok w :
  cache_ok w →
  cache_ok (get_metadata env url timeout retries sec_between agent w).2.
Proof.
  intros [Hnodup Hlen]. unfold get_metadata, lru_cache, cache_ok.
  destruct (list_find _ (cache w)) as [[i [k v]]|] eqn:Hfind.
  - cbn [snd cache set_cache]. split.
    + cbn [fmap list_fmap fst]. rewrite cache_remove_keys.
      apply NoDup_cons. split.
      * rewrite list_elem_of_filter. by intros [? _].
      * by apply NoDup_filter.
    + apply cache_remove_found in Hfind. simpl. lia.
  - destruct (get_metadata_uncached_effects env url timeout retries
                sec_between agent w) as (Hc & _).
    destruct (get_metadata_uncached _ _ _ _ _ _ w) as [[v|e] w1];
      cbn [snd] in *; [|by rewrite Hc].
    cbn [cache set_cache]. rewrite Hc. split.
    + rewrite fmap_take. eapply sublist_NoDup; [|apply sublist_take].
      cbn [fmap list_fmap fst].
      apply NoDup_cons. split; [|done].
      intros ([k v'] & Hk & Hin)%list_elem_of_fmap. simpl in Hk.
      apply list_find_None in Hfind. rewrite Forall_forall in Hfind.
      by apply (Hfind _ Hin).
    + rewrite length_take. unfold lru_maxsize. lia.
Qed.

(** X16. A call of [get_metadata] that raises leaves the cache as it
    was: exceptions are not stored. *)
Theorem get_metadata_failure_keeps_cache w exc :
  (get_metadata env url timeout retries sec_between agent w).1 = Raise exc →
  cache (get_metadata env url timeout retries sec_between agent w).2
  = cache w.
Proof.
  unfold get_metadata, lru_cache.
  destruct (list_find _ (cache w)) as [[i [k v]]|]; [done|].
  destruct (get_metadata_uncached_effects env url timeout retries
              sec_between agent w) as (Hc & _).
  by destruct (get_metadata_uncached _ _ _ _ _ _ w) as [[v|e] w1].
Qed.
End CacheAndOutcome.

Section ReturnedDocument.
Variable env : Env.
Variables (url : string) (timeout retries sec_between : Z) (agent : string).

Lemma loop_Ok ifaces :
  ∀ exception w doc w',
    get_metadata_loop env ifaces exception
      url timeout retries sec_between agent w = (Ok doc, w') →
    ∃ iface,
      iface ∈ ifaces ∧ ¬ is_skipped (if_name iface)
      ∧ attempt_result env url timeout retries sec_between agent iface
        = Ok doc.
Proof.
  induction ifaces as [|iface ifaces IH]; intros exception w doc w'; [done|].
  assert (∀ exc w0,
            get_metadata_loop env ifaces exc
              url timeout retries sec_between agent w0 = (Ok doc, w') →
            ∃ i, i ∈ iface :: ifaces ∧ ¬ is_skipped (if_name i)
                 ∧ attempt_result env url timeout retries sec_between
                     agent i = Ok doc) as Hrest.
  { intros exc w0 (i & Hi & ?)%IH. exists i. split; [by right|done]. }
  cbn [get_metadata_loop].
  destruct (str_contains "dummy" (if_name iface)) eqn:Hdummy;
    [by apply Hrest|].
  destruct (String.eqb "lo" (if_name iface)) eqn:Hlo; [by apply Hrest|].
  destruct (attempt_frame env iface url timeout retries sec_between agent w)
    as (w1 & Hw1 & _).
  unfold try_except. rewrite Hw1.
  destruct (attempt_result env url timeout retries sec_between agent iface)
    as [doc'|exc] eqn:Hres.
  - intros [= -> ->]. exists iface.
    split_and!; [by left|by apply not_skipped_by_tests|done].
  - destruct (is_caught exc); [|done].
    unfold mbind, M_bind, emit. apply Hrest.
Qed.

Lemma attempt_Ok iface doc :
  attempt_result env url timeout retries sec_between agent iface = Ok doc →
  dhcp_obtain_lease env (if_name iface) = None
  ∧ ∃ resp text,
      url_helper_readurl env (Some (if_name iface))
        (metadata_request url timeout retries sec_between agent) = Ok resp
      ∧ ok resp = true
      ∧ contents_decode resp = Ok text
      ∧ json_loads env text = Ok doc.
Proof.
  unfold attempt_result, attempt. rewrite with_EphemeralDHCPv4_unfold.
  destruct (dhcp_obtain_lease env (if_name iface)) as [e|]; [done|].
  split; [done|]. revert H.
  unfold mbind at 1, M_bind at 1.
  destruct (framed_set_route env (if_name iface) (Some (if_name iface)))
    as (r & evs & Hr).
  rewrite Hr by done. destruct r as [[]|e]; [|done].
  unfold mbind at 1, M_bind at 1. rewrite read_metadata_unfold.
  cbn [lease]. unfold fetch_outcome.
  destruct (url_helper_readurl env _ _) as [resp|e] eqn:Hresp; [|done].
  destruct (ok resp) eqn:Hok; [|done].
  destruct (contents_decode resp) as [text|e] eqn:Htext; [|done].
  unfold lift. cbn [fst].
  destruct (json_loads env text) as [doc'|e] eqn:Hdoc; [|done].
  intros [= <-]. by exists resp, text.
Qed.

(** X17. A document that [get_metadata] returns without finding it in its
    cache was fetched: some enumerated interface that is not skipped got a
    lease, the request sent while it held the lease had a successful
    response, and the document is the parsed JSON of the decoded contents.
    The document is then in the cache. *)
Theorem get_metadata_returns_fetched doc w w' :
  cached (url, timeout, retries, sec_between, agent) w = None →
  get_metadata env url timeout retries sec_between agent w = (Ok doc, w') →
  ∃ iface resp text,
    iface ∈ net_get_interfaces env
    ∧ ¬ is_skipped (if_name iface)
    ∧ dhcp_obtain_lease env (if_name iface) = None
    ∧ url_helper_readurl env (Some (if_name iface))
        (metadata_request url timeout retries sec_between agent) = Ok resp
    ∧ ok resp = true
    ∧ contents_decode resp = Ok text
    ∧ json_loads env text = Ok doc
    ∧ cached (url, timeout, retries, sec_between, agent) w' = Some doc.
Proof.
  intros Hmiss. unfold get_metadata. rewrite lru_cache_miss by done.
  unfold get_metadata_uncached.
  destruct (get_metadata_loop _ _ _ _ _ _ _ _ w) as [[v|e] w1] eqn:Hloop;
    [|done].
  intros [= -> <-].
  apply loop_Ok in Hloop as (iface & Hin & Hkeep & Hres).
  apply attempt_Ok in Hres as (Hlease & resp & text & ? & ? & ? & ?).
  exists iface, resp, text. split_and!; try done.
  unfold cached. cbn [cache set_cache take lru_maxsize list_find].
  by rewrite decide_True.
Qed.
End ReturnedDocument.

Section BareMetal.
Variable read_dmi_data : string → option string.
Variable get_cmdline : list N.

(** X18. A machine is recognised as Vultr and classified as bare metal
    exactly when its firmware does not give [Vultr] as manufacturer and
    [vultr] is a word of the kernel command line; a machine that is not
    classified as bare metal is always recognised as Vultr. *)
Theorem is_baremetal_vultr :
  (is_vultr read_dmi_data get_cmdline = true
   ∧ is_baremetal read_dmi_data = true
   ↔ read_dmi_data "system-manufacturer" ≠ Some "Vultr"
     ∧ delimited_word (codepoints "vultr") get_cmdline)
  ∧ (is_baremetal read_dmi_data = false
     ↔ read_dmi_data "system-manufacturer" = Some "Vultr")
  ∧ is_vultr read_dmi_data get_cmdline || is_baremetal read_dmi_data = true.
Proof.
  unfold is_vultr, is_baremetal, get_sysinfo. cbn [manufacturer].
  rewrite <- split_spec. repeat case_bool_decide; intuition congruence.
Qed.
End BareMetal.

(** ** The further properties on the sample systems *)

Lemma private_interface_stanza_sample :
  generate_private_network_interface sample_macs sample_private
  = Ok (VDict [("name", VStr "eth1"); ("type", VStr "physical");
               ("mac_address", VStr "BB");
               ("subnets",
                VList [VDict [("type", VStr "static");
                              ("control", VStr "auto");
                              ("address", VStr "10.1.96.3");
                              ("netmask", VStr "255.255.240.0")]])]).
Proof.
  apply (private_interface_stanza sample_macs
           [("mac", VStr "BB");
            ("ipv4", VDict [("address", VStr "10.1.96.3");
                            ("netmask", VStr "255.255.240.0")])]
           "BB" "eth1"
           [("address", VStr "10.1.96.3");
            ("netmask", VStr "255.255.240.0")]
           (VStr "10.1.96.3") (VStr "255.255.240.0"));
    try (vm_compute; reflexivity).
  done.
Defined.

Lemma generate_network_config_returns_sample :
  ∃ public private,
    generate_network_config sample_macs [sample_public; sample_private]
    = Ok (VDict [("version", VInt 1);
                 ("config",
                  VList [VDict [("type", VStr "nameserver");
                                ("address", VList [VStr "108.61.10.10"])];
                         VDict public; VDict private])])
    ∧ dict_get "name" public = Some (VStr "eth0")
    ∧ dict_get "name" private = Some (VStr "eth1").
Proof.
  destruct (generate_network_config sample_macs
              [sample_public; sample_private]) as [doc|] eqn:Hdoc;
    [|vm_compute in Hdoc; discriminate].
  destruct (generate_network_config_returns sample_macs
              [sample_public; sample_private] doc Hdoc)
    as (stanzas & -> & Hlen & Hk).
  destruct (Hk 0%nat sample_public eq_refl)
    as (d0 & mac0 & name0 & cfg0 & [= <-] & [= <-] & Hn0 & _ & Hs0 & _
        & Hname0 & _).
  destruct (Hk 1%nat sample_private eq_refl)
    as (d1 & mac1 & name1 & cfg1 & [= <-] & [= <-] & Hn1 & _ & Hs1 & _
        & Hname1 & _).
  vm_compute in Hn0. injection Hn0 as <-.
  vm_compute in Hn1. injection Hn1 as <-.
  destruct stanzas as [|s0 [|s1 [|s2 stanzas]]]; try discriminate Hlen.
  injection Hs0 as ->. injection Hs1 as ->.
  by exists cfg0, cfg1.
Defined.

Lemma translated_stanza_is_named_sample :
  ∃ cfg,
    translate sample_macs 1 sample_private = Ok (VDict cfg)
    ∧ dict_get "name" cfg = Some (VStr "eth1").
Proof.
  destruct (translate sample_macs 1 sample_private) as [stanza|] eqn:Hs;
    [|vm_compute in Hs; discriminate].
  destruct (translated_stanza_is_named sample_macs 1 sample_private stanza
              Hs)
    as (d & mac & name & cfg & [= <-] & -> & [= <-] & Hname & _ & Hcfg & _).
  exists cfg. split; [done|]. rewrite Hcfg.
  vm_compute in Hname. by injection Hname as <-.
Defined.

Lemma generate_network_config_first_failure_sample :
  generate_network_config sample_macs
    [sample_public; sample_private_no_ipv4; sample_unknown]
  = Raise (KeyError "ipv4").
Proof.
  apply (generate_network_config_first_failure sample_macs
           [sample_public; sample_private_no_ipv4; sample_unknown]
           1 sample_private_no_ipv4).
  - reflexivity.
  - vm_compute. reflexivity.
  - intros [|j] ij Hj Hij; [|lia]. injection Hij as <-.
    vm_compute. reflexivity.
Defined.

Lemma add_interface_names_names_sample :
  ∃ named,
    add_interface_names sample_macs [sample_public; sample_private]
    = (Ok named, named)
    ∧ length named = 2%nat.
Proof.
  destruct (add_interface_names_names sample_macs
              [sample_public; sample_private])
    as (named & Hcall & Hlen & _).
  { constructor; [vm_compute; reflexivity|].
    constructor; [vm_compute; reflexivity|constructor]. }
  by exists named.
Defined.

Lemma add_interface_names_unresolved_sample :
  ∃ named,
    add_interface_names sample_macs
      [sample_public; sample_unknown; sample_private]
    = (Raise (not_found_error "CC"),
       named ++ [sample_unknown; sample_private])
    ∧ add_interface_names sample_macs [sample_public] = (Ok named, named).
Proof.
  apply (add_interface_names_unresolved sample_macs
           [sample_public; sample_unknown; sample_private]
           1 sample_unknown "CC").
  - reflexivity.
  - vm_compute. reflexivity.
  - constructor; [vm_compute; reflexivity|constructor].
Defined.

Lemma add_interface_names_idempotent_sample :
  let named := (add_interface_names sample_macs
                  [sample_public; sample_private]).2 in
  add_interface_names sample_macs named = (Ok named, named).
Proof.
  intros named.
  apply (add_interface_names_idempotent sample_macs
           [sample_public; sample_private] named named).
  vm_compute. reflexivity.
Defined.


Lemma get_metadata_releases_lease_sample :
  lease (get_metadata env_fetch_error sample_url 10 3 5 sample_agent
           fresh_world).2 = None.
Proof.
  apply (get_metadata_releases_lease env_fetch_error sample_url 10 3 5
           sample_agent fresh_world).
  reflexivity.
Defined.

Lemma get_metadata_uncaught_propagates_sample :
  ∃ w',
    get_metadata env_fetch_error sample_url 10 3 5 sample_agent fresh_world
    = (Raise (UrlError "http://169.254.169.254/v1.json" None), w')
    ∧ trace w'
      = [DhcpEnter "eth0" sample_url;
         ReadUrl (metadata_request sample_url 10 3 5 sample_agent);
         DhcpExit "eth0"].
Proof.
  destruct (get_metadata_uncaught_propagates env_fetch_error sample_url
              10 3 5 sample_agent
              [] (iface_named "eth0") [iface_named "eth1"] []
              (UrlError "http://169.254.169.254/v1.json" None) fresh_world)
    as (w' & Hcall & Htrace & _).
  - reflexivity.
  - apply candidates_nil.
  - constructor.
  - by apply not_skipped_by_tests.
  - vm_compute. reflexivity.
  - reflexivity.
  - reflexivity.
  - exists w'. split; [exact Hcall|]. rewrite Htrace. vm_compute.
    reflexivity.
Defined.

(** The cache answers although the server would answer 500. *)
Lemma get_metadata_cache_hit_sample :
  ∃ w',
    get_metadata env_http_500 sample_url 10 3 5 sample_agent cached_world
    = (Ok (VDict [("interfaces", VList [])]), w')
    ∧ trace w' = [].
Proof.
  destruct (get_metadata_cache_hit env_http_500 sample_url 10 3 5
              sample_agent (VDict [("interfaces", VList [])]) cached_world)
    as (w' & Hcall & Htrace & _).
  { vm_compute. reflexivity. }
  by exists w'.
Defined.

Lemma get_metadata_keeps_cache_ok_sample :
  cache_ok (get_metadata env_second_interface sample_url 10 3 5 sample_agent
              fresh_world).2.
Proof.
  apply (get_metadata_keeps_cache_ok env_second_interface sample_url 10 3 5
           sample_agent fresh_world).
  split; [constructor|]. unfold lru_maxsize. simpl. lia.
Defined.

Lemma get_metadata_failure_keeps_cache_sample :
  cache (get_metadata env_http_500 sample_url 20 3 5 sample_agent
           cached_world).2
  = cache cached_world.
Proof.
  apply (get_metadata_failure_keeps_cache env_http_500 sample_url 20 3 5
           sample_agent cached_world
           (TypeError "not enough arguments for format string")).
  vm_compute. reflexivity.
Defined.

Lemma get_metadata_returns_fetched_sample :
  ∃ iface,
    iface ∈ net_get_interfaces env_second_interface
    ∧ ¬ is_skipped (if_name iface)
    ∧ dhcp_obtain_lease env_second_interface (if_name iface) = None.
Proof.
  destruct (get_metadata env_second_interface sample_url 10 3 5 sample_agent
              fresh_world) as [r w'] eqn:Hcall.
  assert (r = Ok (VDict [("interfaces", VList [])])) as ->.
  { apply (f_equal fst) in Hcall. vm_compute in Hcall. by subst r. }
  destruct (get_metadata_returns_fetched env_second_interface sample_url
              10 3 5 sample_agent (VDict [("interfaces", VList [])])
              fresh_world w' eq_refl Hcall)
    as (iface & resp & text & Hin & Hkeep & Hlease & _).
  by exists iface.
Defined.

Lemma is_baremetal_vultr_sample :
  is_vultr (λ _, Some "QEMU") cmdline_nbsp = true
  ∧ is_baremetal (λ _, Some "QEMU") = true.
Proof.
  apply (proj1 (is_baremetal_vultr (λ _, Some "QEMU") cmdline_nbsp)).
  split; [done|exact vultr_after_nbsp].
Defined.
